(** * vector_of_kll_sketches: the container of [d] KLL sketches

    A shallow embedding of [src/vector_of_kll.cpp] and the properties of
    its index resolver, update, merge, collapse, bulk queries, string
    summary and (de)serialisation.

    The KLL sketch itself ([kll_sketch.hpp]) is a collaborator that is not
    part of the file: it enters as the interface [KllEngine].  Machine
    integers are [Z] with the conversions written out, [std::vector]s are
    lists read and written by index, C++ exceptions and out-of-range
    accesses are outcomes of a small state-and-exception monad. *)

From Stdlib Require Import ZArith QArith Qround Lia Ascii String.
From Stdlib.Strings Require Import Byte.
From stdpp Require Import base tactics option list strings pretty gmap.

Local Open Scope Z_scope.

(** ** Machine integers *)

Definition u32_max : Z := 4294967295.
Definition int_min : Z := -2147483648.
Definition int_max : Z := 2147483647.

(** [static_cast<uint32_t>(v)] *)
Definition to_u32 (v : Z) : Z := v mod 4294967296.

Definition is_u32 (v : Z) : Prop := 0 ≤ v ≤ u32_max.
Definition is_int (v : Z) : Prop := int_min ≤ v ≤ int_max.

(** [std::to_string] on an integer *)
Definition to_string_Z (v : Z) : string := pretty v.

(** [v.size()] as an integer *)
Definition ssize {A} (l : list A) : Z := Z.of_nat (length l).

(** [v[i]] of a [std::vector] or array: nothing is there out of range. *)
Definition vec_at {A} (l : list A) (i : Z) : option A :=
  if (0 <=? i) && (i <? ssize l) then l !! Z.to_nat i else None.

(** [v[i] = x] *)
Definition vec_set {A} (l : list A) (i : Z) (x : A) : option (list A) :=
  if (0 <=? i) && (i <? ssize l) then Some (<[Z.to_nat i := x]> l) else None.

(** ** Outcomes of a call *)

Inductive exn : Type :=
| invalid_argument (what : string)
| engine_error (what : string).

(** What the C++ standard leaves undefined, or a call that cannot return. *)
Inductive fault : Type :=
| out_of_bounds      (* a vector or array read or written outside its extent *)
| no_exit            (* a loop whose 32-bit counter can never reach its bound *)
| int_overflow       (* ++ on an int holding INT_MAX *)
| bad_reference.     (* a reference or pointer to no live object *)

(** A call on a state [St]: it returns, or throws leaving the state it had
    reached, or leaves the defined behaviour. *)
Inductive outcome (St A : Type) : Type :=
| Ret (a : A) (s : St)
| Throw (e : exn) (s : St)
| Fault (f : fault).
Arguments Ret {St A} a s.
Arguments Throw {St A} e s.
Arguments Fault {St A} f.

(** The result of a [const] member function. *)
Inductive answer (A : Type) : Type :=
| Value (a : A)
| Raised (e : exn)
| Undefined (f : fault).
Arguments Value {A} a.
Arguments Raised {A} e.
Arguments Undefined {A} f.

Definition M (St A : Type) : Type := St → outcome St A.

Definition M_bind {St A B} (f : A → M St B) (m : M St A) : M St B :=
  λ s, match m s with
       | Ret a s' => f a s'
       | Throw e s' => Throw e s'
       | Fault x => Fault x
       end.

#[global] Instance M_mret St : MRet (M St) := λ A a s, Ret a s.
#[global] Instance M_mbind St : MBind (M St) := λ A B f m, M_bind f m.

Definition throw {St A} (e : exn) : M St A := λ s, Throw e s.
Definition fault_with {St A} (f : fault) : M St A := λ _, Fault f.
Definition get {St} : M St St := λ s, Ret s s.
Definition put {St} (s : St) : M St unit := λ _, Ret tt s.
Definition modify {St} (f : St → St) : M St unit := λ s, Ret tt (f s).

(** A partial read: [None] is an access out of range. *)
Definition in_range {St A} (o : option A) : M St A :=
  match o with Some a => mret a | None => fault_with out_of_bounds end.

(** A call into a [const] function from inside another one. *)
Definition call {St A} (r : answer A) : M St A :=
  match r with
  | Value a => mret a
  | Raised e => throw e
  | Undefined f => fault_with f
  end.

(** A call into the engine, which returns or throws. *)
Definition engine {St A} (r : exn + A) : M St A :=
  match r with inl e => throw e | inr a => mret a end.

(** Run a function body on its local variables and keep what it returns. *)
Definition eval_local {St A} (m : M St A) (locals : St) : answer A :=
  match m locals with
  | Ret a _ => Value a
  | Throw e _ => Raised e
  | Fault f => Undefined f
  end.

(** [for (i = start; ...; ++i) body], [n] iterations. *)
Fixpoint loop {St} (n : nat) (i : Z) (body : Z → M St unit) : M St unit :=
  match n with
  | O => mret tt
  | S n' => body i ;; loop n' (i + 1) body
  end.

(** [for (uint32_t i = 0; i < bound; ++i)] with a [uint32_t] bound. *)
Definition for_lt {St} (bound : Z) (body : Z → M St unit) : M St unit :=
  loop (Z.to_nat bound) 0 body.

(** [for (uint32_t i = 0; i < bound; ++i)] with a [size_t] bound: past
    [u32_max] the counter wraps to 0 after a full pass and the loop starts
    over; it never exits. *)
Definition for_u32 {St} (bound : Z) (body : Z → M St unit) : M St unit :=
  if bound <=? u32_max then for_lt bound body
  else for_lt (u32_max + 1) body ;; fault_with no_exit.

(** [for (int idx = 0; idx < bound; ++idx)] with a [size_t] bound: the
    counter ends at [bound], and past [int_max] the increment overflows. *)
Definition for_int {St} (bound : Z) (body : Z → M St unit) : M St unit :=
  if bound <=? int_max then for_lt bound body
  else for_lt (int_max + 1) body ;; fault_with int_overflow.

(** ** The index resolver *)

Definition push_back {A} (x : A) : M (list A) unit := modify (λ v, v ++ [x]).

Definition invalid_dimensions (d_ idx : Z) : exn :=
  invalid_argument ("request for invalid dimensions >= d ("
                    +:+ to_string_Z d_ +:+ "): " +:+ to_string_Z idx).

(** [get_indices]: the local [indices] is the state of the body. *)
Definition get_indices (d_ : Z) (isk : list Z) : answer (list Z) :=
  eval_local
    ((if ssize isk =? 1 then
        v0 ← in_range (vec_at isk 0);
        if v0 =? -1 then
          for_lt d_ (λ i, push_back i)
        else
          push_back (to_u32 v0)
      else
        for_u32 (ssize isk) (λ i,
          v ← in_range (vec_at isk i);
          let idx := to_u32 v in
          if idx <? d_ then push_back idx
          else throw (invalid_dimensions d_ idx))) ;;
     get)
    [].

(** The many-element branch of [get_indices], as a scan of the sequence:
    what the proofs below compare the loop with. *)
Fixpoint scan (d_ : Z) (l : list Z) (acc : list Z) : answer (list Z) :=
  match l with
  | [] => Value acc
  | v :: l' =>
      if to_u32 v <? d_ then scan d_ l' (acc ++ [to_u32 v])
      else Raised (invalid_dimensions d_ (to_u32 v))
  end.

(** ** The sketch engine

    [kll_sketch<T, C>] of [kll_sketch.hpp], as far as the container calls
    it.  [T] is the item type, [double] and [float] the C++ types of these
    names with the conversions an assignment performs; [T_zero] and
    [float_zero] are the values a [std::vector] of a given size starts
    with.  The constructor, the queries and [deserialize] may throw. *)
Class KllEngine : Type := {
  T : Type;
  double : Type;
  float : Type;
  T_zero : T;
  float_zero : float;
  double_to_float : double → float;
  double_to_T : double → T;
  kll_sketch : Type;
  sk_new : Z → exn + kll_sketch;
  sk_update : kll_sketch → T → kll_sketch;
  sk_merge : kll_sketch → kll_sketch → kll_sketch;
  sk_is_empty : kll_sketch → bool;
  sk_get_n : kll_sketch → Z;
  sk_get_min_item : kll_sketch → exn + T;
  sk_get_max_item : kll_sketch → exn + T;
  sk_get_quantile : kll_sketch → double → exn + T;
  sk_get_rank : kll_sketch → T → exn + double;
  sk_get_PMF : kll_sketch → list T → exn + list double;
  sk_get_CDF : kll_sketch → list T → exn + list double;
  sk_to_string : kll_sketch → bool → bool → string;
  sk_serialize : kll_sketch → list byte;
  sk_deserialize : list byte → Z → exn + kll_sketch;
}.

(** ** Arrays handed in by the caller

    [nb::ndarray<V>]: its shape, the contiguity its type records, and the
    element accessor [items(i)], [items(i, j)]. *)
Inductive contiguity : Type := f_contig | c_contig | any_contig.

Record ndarray (V : Type) : Type := {
  nd_shape : list Z;
  nd_contig : contiguity;
  nd_item : list Z → V;
}.
Arguments nd_shape {V} _.
Arguments nd_contig {V} _.
Arguments nd_item {V} _ _.

(** [nb::ndarray<V, nb::numpy, nb::ndim<1>>] as a function hands it back:
    a shape and a pointer to the elements.  The array is built from a data
    pointer with no owner and copies nothing, so it has elements only while
    the storage it points at lives. *)
Inductive storage (V : Type) : Type :=
| live (elems : list V)
| destroyed.
Arguments live {V} elems.
Arguments destroyed {V}.

Record array1d (V : Type) : Type := {
  a1_shape : list Z;
  a1_data : storage V;
}.
Arguments Build_array1d {V} _ _.
Arguments a1_shape {V} _.
Arguments a1_data {V} _.

(** [return array1d<V>(vals.data(), 1, shape);] where [vals] is a vector
    local to the returning function: [vals] is destroyed as the function
    returns, and the array the caller receives points at storage that is
    gone, whatever had been written to it. *)
Definition view_of_local {V} (vals : list V) (shape : list Z) : array1d V :=
  {| a1_shape := shape; a1_data := destroyed |}.

(** Reading element [i] of a returned array. *)
Definition array1d_at {V} (a : array1d V) (i : Z) : answer V :=
  match a1_data a with
  | live elems =>
      match vec_at elems i with
      | Some x => Value x
      | None => Undefined out_of_bounds
      end
  | destroyed => Undefined bad_reference
  end.

(** The line feed written by ["\n"]. *)
Definition nl : string := String "010"%char EmptyString.

Section Container.
Context {E : KllEngine}.

Record vector_of_kll_sketches : Type := {
  k_ : Z;
  d_ : Z;
  sketches_ : list kll_sketch;
}.

Definition with_sketches (c : vector_of_kll_sketches) (l : list kll_sketch)
  : vector_of_kll_sketches :=
  {| k_ := k_ c; d_ := d_ c; sketches_ := l |}.

(** What the constructor establishes and every member function keeps. *)
Definition container_ok (c : vector_of_kll_sketches) : Prop :=
  1 ≤ d_ c ≤ u32_max ∧ ssize (sketches_ c) = d_ c.

(** The constructor; the vector being filled is the state of the body. *)
Definition new_vector_of_kll_sketches (k d : Z) : answer vector_of_kll_sketches :=
  eval_local
    (if d <? 1 then
       throw (invalid_argument ("D must be >= 1: " +:+ to_string_Z d))
     else
       for_lt d (λ _, s ← engine (sk_new k); push_back s) ;;
       l ← get;
       mret {| k_ := k; d_ := d; sketches_ := l |})
    [].

Definition get_k (c : vector_of_kll_sketches) : Z := k_ c.
Definition get_d (c : vector_of_kll_sketches) : Z := d_ c.

(** [char check_order(...)]: the overload is chosen by the array type. *)
Definition check_order {V} (items : ndarray V) : ascii :=
  match nd_contig items with
  | f_contig => "F"%char
  | c_contig => "C"%char
  | any_contig => "?"%char
  end.

(** [sketches_[i].update(v)] *)
Definition update_sketch (i : Z) (v : T) : M vector_of_kll_sketches unit :=
  c ← get;
  s ← in_range (vec_at (sketches_ c) i);
  l ← in_range (vec_set (sketches_ c) i (sk_update s v));
  put (with_sketches c l).

Definition wrong_row_length (d last : Z) : exn :=
  invalid_argument ("input data must have rows with  " +:+ to_string_Z d
                    +:+ " elements. Found: " +:+ to_string_Z last).

Definition update (items : ndarray T) : M vector_of_kll_sketches unit :=
  c ← get;
  let ndim := ssize (nd_shape items) in
  last ← in_range (vec_at (nd_shape items) (ndim - 1));
  if negb (last =? d_ c) then
    throw (wrong_row_length (d_ c) last)
  else if ndim =? 1 then
    for_lt (d_ c) (λ i, update_sketch i (nd_item items [i]))
  else if ndim =? 2 then
    rows ← in_range (vec_at (nd_shape items) 0);
    if Ascii.eqb (check_order items) "F" then
      for_lt (d_ c) (λ j,
        for_u32 rows (λ i, update_sketch j (nd_item items [i; j])))
    else
      for_u32 rows (λ i,
        for_lt (d_ c) (λ j, update_sketch j (nd_item items [i; j])))
  else
    throw (invalid_argument ("Update input must be 2 or fewer dimensions : "
                             +:+ to_string_Z ndim)).

(** *** merge

    [other] is a reference: both containers live in a store, and the body
    reads [other] through it at every step. *)
Local Abbreviation store := (gmap nat vector_of_kll_sketches).

Definition deref (p : nat) : M store vector_of_kll_sketches :=
  h ← get;
  match h !! p with
  | Some c => mret c
  | None => fault_with bad_reference
  end.

Definition assign (p : nat) (c : vector_of_kll_sketches) : M store unit :=
  modify (λ h : store, <[p := c]> h).

Definition different_dimensions (d other_d : Z) : exn :=
  invalid_argument ("Must have same number of dimensions to merge: "
                    +:+ to_string_Z d +:+ " vs " +:+ to_string_Z other_d).

Definition merge (this other : nat) : M store unit :=
  a ← deref this;
  b ← deref other;
  if negb (d_ a =? get_d b) then
    throw (different_dimensions (d_ a) (d_ b))
  else
    for_lt (d_ a) (λ i,
      b ← deref other;
      o ← in_range (vec_at (sketches_ b) i);
      a ← deref this;
      s ← in_range (vec_at (sketches_ a) i);
      l ← in_range (vec_set (sketches_ a) i (sk_merge s o));
      assign this (with_sketches a l)).

(** *** collapse: the local [result] is the state of the loop. *)
Definition collapse (c : vector_of_kll_sketches) (isk : list Z) : answer kll_sketch :=
  let inds := isk in
  match sk_new (k_ c) with
  | inl e => Raised e
  | inr result =>
      eval_local
        (for_int (ssize inds) (λ idx,
           s ← in_range (vec_at (sketches_ c) idx);
           modify (λ result, sk_merge result s)) ;;
         get)
        result
  end.

(** *** Per-channel queries *)

(** [vals[i] = x] *)
Definition set_val {V} (i : Z) (x : V) : M (list V) unit :=
  vals ← get;
  vals' ← in_range (vec_set vals i x);
  put vals'.

(** The body shared by the per-channel queries: the local [vals(d_)] is the
    state of the loop, and what is returned is an array over [vals.data()]
    of shape [{d_}]. *)
Definition per_sketch {V} (c : vector_of_kll_sketches) (zero : V)
    (f : kll_sketch → M (list V) V) : answer (array1d V) :=
  eval_local
    (for_lt (d_ c) (λ i,
       s ← in_range (vec_at (sketches_ c) i);
       x ← f s;
       set_val i x) ;;
     vals ← get;
     mret (view_of_local vals [d_ c]))
    (replicate (Z.to_nat (d_ c)) zero).

Definition is_empty (c : vector_of_kll_sketches) : answer (array1d bool) :=
  per_sketch c false (λ s, mret (sk_is_empty s)).

Definition get_n (c : vector_of_kll_sketches) : answer (array1d Z) :=
  per_sketch c 0 (λ s, mret (sk_get_n s)).

Definition get_min_values (c : vector_of_kll_sketches) : answer (array1d T) :=
  per_sketch c T_zero (λ s, engine (sk_get_min_item s)).

Definition get_max_values (c : vector_of_kll_sketches) : answer (array1d T) :=
  per_sketch c T_zero (λ s, engine (sk_get_max_item s)).

(** *** to_string: the stream [ss] is the state of the loop. *)
Definition write (x : string) : M string unit := modify (λ ss, ss +:+ x).

Definition to_string (c : vector_of_kll_sketches) (print_levels print_items : bool)
  : answer string :=
  eval_local
    (for_lt (d_ c) (λ i,
       (if 0 <? i then write nl else mret tt) ;;
       s ← in_range (vec_at (sketches_ c) i);
       write (sk_to_string s print_levels print_items)) ;;
     get)
    "".

(** *** Bulk queries: the matrix being filled is the state of the body. *)

(** [m[i][j] = x] *)
Definition set_entry {V} (i j : Z) (x : V) : M (list (list V)) unit :=
  m ← get;
  row ← in_range (vec_at m i);
  row' ← in_range (vec_set row j x);
  m' ← in_range (vec_set m i row');
  put m'.

(** [std::vector<std::vector<V>> m(rows, std::vector<V>(cols))] *)
Definition matrix {V} (rows cols : Z) (zero : V) : list (list V) :=
  replicate (Z.to_nat rows) (replicate (Z.to_nat cols) zero).

(** [sketches_[inds[i]]] *)
Definition selected {St} (c : vector_of_kll_sketches) (inds : list Z) (i : Z)
  : M St kll_sketch :=
  ix ← in_range (vec_at inds i);
  in_range (vec_at (sketches_ c) ix).

Definition get_quantiles (c : vector_of_kll_sketches) (ranks : list double)
    (isk : list Z) : answer (list (list T)) :=
  eval_local
    (inds ← call (get_indices (d_ c) isk);
     let num_sketches := ssize inds in
     let num_quantiles := ssize ranks in
     put (matrix num_sketches num_quantiles T_zero) ;;
     for_u32 num_sketches (λ i,
       for_lt num_quantiles (λ j,
         s ← selected c inds i;
         r ← in_range (vec_at ranks j);
         q ← engine (sk_get_quantile s r);
         set_entry i j q)) ;;
     get)
    [].

Definition get_ranks (c : vector_of_kll_sketches) (values : list T)
    (isk : list Z) : answer (list (list float)) :=
  eval_local
    (inds ← call (get_indices (d_ c) isk);
     let num_sketches := ssize inds in
     let num_ranks := ssize values in
     let vals := values in
     put (matrix num_sketches num_ranks float_zero) ;;
     for_u32 num_sketches (λ i,
       for_lt num_ranks (λ j,
         s ← selected c inds i;
         v ← in_range (vec_at vals j);
         r ← engine (sk_get_rank s v);
         set_entry i j (double_to_float r))) ;;
     get)
    [].

Definition get_pmf (c : vector_of_kll_sketches) (split_points : list T)
    (isk : list Z) : answer (list (list T)) :=
  eval_local
    (inds ← call (get_indices (d_ c) isk);
     let num_sketches := ssize inds in
     let num_splits := ssize split_points in
     put (matrix num_sketches (num_splits + 1) T_zero) ;;
     for_u32 num_sketches (λ i,
       s ← selected c inds i;
       pmf ← engine (sk_get_PMF s split_points);
       for_lt (num_splits + 1) (λ j,
         x ← in_range (vec_at pmf j);
         set_entry i j (double_to_T x))) ;;
     get)
    [].

Definition get_cdf (c : vector_of_kll_sketches) (split_points : list T)
    (isk : list Z) : answer (list (list T)) :=
  eval_local
    (inds ← call (get_indices (d_ c) isk);
     let num_sketches := ssize inds in
     let num_splits := ssize split_points in
     put (matrix num_sketches (num_splits + 1) T_zero) ;;
     for_u32 num_sketches (λ i,
       s ← selected c inds i;
       cdf ← engine (sk_get_CDF s split_points);
       for_lt (num_splits + 1) (λ j,
         x ← in_range (vec_at cdf j);
         set_entry i j (double_to_T x))) ;;
     get)
    [].

(** *** Binary output and input *)

(** [serialize]: the [nb::list] being appended to is the state. *)
Definition serialize (c : vector_of_kll_sketches) (isk : list Z)
  : answer (list (list byte)) :=
  eval_local
    (inds ← call (get_indices (d_ c) isk);
     let num_sketches := ssize inds in
     for_u32 num_sketches (λ i,
       s ← selected c inds i;
       let serResult := sk_serialize s in
       push_back serResult) ;;
     get)
    [].

(** [deserialize].  The length handed to the engine is [skStr.length()];
    [skStr] is declared nowhere in the file, so its length is an argument
    here. *)
Definition deserialize (skStr_length : Z) (sk_bytes : list byte) (idx : Z)
  : M vector_of_kll_sketches unit :=
  c ← get;
  if d_ c <=? idx then
    throw (invalid_dimensions (d_ c) idx)
  else
    s ← engine (sk_deserialize sk_bytes skStr_length);
    l ← in_range (vec_set (sketches_ c) idx s);
    put (with_sketches c l).

(** *** Notions the properties are stated with *)

(** [c] is [c0] with every sketch [S[j]] replaced by [f j S[j]]. *)
Definition reshaped (c0 c : vector_of_kll_sketches)
    (f : nat → kll_sketch → kll_sketch) : Prop :=
  k_ c = k_ c0 ∧ d_ c = d_ c0
  ∧ length (sketches_ c) = length (sketches_ c0)
  ∧ ∀ j s, sketches_ c0 !! j = Some s → sketches_ c !! j = Some (f j s).

(** The values of column [j] in the first [n] rows, in row order. *)
Definition column (items : ndarray T) (n j : Z) : list T :=
  (λ i, nd_item items [i; j]) <$> seqZ 0 n.

(** [S[j]] after the first [n] rows. *)
Definition feed (items : ndarray T) (n : Z) (j : nat) (s : kll_sketch) : kll_sketch :=
  fold_left sk_update (column items n (Z.of_nat j)) s.

(** [S[j].merge(O[j])] where [other] has a sketch [O[j]]. *)
Definition paired (b : vector_of_kll_sketches) (j : nat) (s : kll_sketch) : kll_sketch :=
  match sketches_ b !! j with
  | Some o => sk_merge s o
  | None => s
  end.

(** The sketches a resolved selector picks, in its order. *)
Definition picks (c : vector_of_kll_sketches) (inds : list Z) (sel : list kll_sketch) : Prop :=
  Forall2 (λ ix s, vec_at (sketches_ c) ix = Some s) inds sel.

End Container.


(** The same array under another contiguity. *)
Definition with_contig {V} (tag : contiguity) (items : ndarray V) : ndarray V :=
  {| nd_shape := nd_shape items; nd_contig := tag; nd_item := nd_item items |}.

(** ** A recording engine *)

Definition unanswered : exn := engine_error "a recorder answers no query".

(** An engine whose sketch is the record of the values its [update]
    received, in the order of the calls. *)
Definition recorder (E : KllEngine) : KllEngine := {|
  T := @T E;
  double := @double E;
  float := @float E;
  T_zero := T_zero;
  float_zero := float_zero;
  double_to_float := double_to_float;
  double_to_T := double_to_T;
  kll_sketch := list (@T E);
  sk_new := λ _, inr [];
  sk_update := λ s v, s ++ [v];
  sk_merge := λ s o, s ++ o;
  sk_is_empty := λ s, match s with [] => true | _ => false end;
  sk_get_n := ssize;
  sk_get_min_item := λ _, inl unanswered;
  sk_get_max_item := λ _, inl unanswered;
  sk_get_quantile := λ _ _, inl unanswered;
  sk_get_rank := λ _ _, inl unanswered;
  sk_get_PMF := λ _ _, inl unanswered;
  sk_get_CDF := λ _ _, inl unanswered;
  sk_to_string := λ _ _ _, "";
  sk_serialize := λ _, [];
  sk_deserialize := λ _ _, inl unanswered;
|}.

(** [d] recording sketches that have received nothing yet. *)
Definition no_deliveries {E : KllEngine} (d : Z)
  : vector_of_kll_sketches (E := recorder E) :=
  @Build_vector_of_kll_sketches (recorder E) 0 d (replicate (Z.to_nat d) []).

(** The values [update] hands to each of [d] sketches, per sketch. *)
Definition deliveries {E : KllEngine} (tag : contiguity) (items : ndarray T)
    (d : Z) : answer (list (list T)) :=
  match update (E := recorder E) (with_contig tag items) (no_deliveries d) with
  | Ret _ c' => Value (sketches_ c')
  | Throw e _ => Raised e
  | Fault f => Undefined f
  end.

(** ** An engine to run the container on

    A sketch that retains every item: the answers of a KLL sketch below
    its estimation threshold.  Items and ranks are rationals, so every
    conversion is the identity. *)
Module Exact.

Record exact_sketch : Type := { ex_k : Z; ex_items : list Q }.

Definition empty_error : exn :=
  engine_error "operation is undefined for an empty sketch".

Definition ex_new (k : Z) : exn + exact_sketch :=
  if (8 <=? k) && (k <=? 65535) then inr {| ex_k := k; ex_items := [] |}
  else inl (invalid_argument ("K must be >= 8 and <= 65535: " +:+ to_string_Z k)).

Definition ex_update (s : exact_sketch) (v : Q) : exact_sketch :=
  {| ex_k := ex_k s; ex_items := ex_items s ++ [v] |}.

Definition ex_merge (s o : exact_sketch) : exact_sketch :=
  {| ex_k := ex_k s; ex_items := ex_items s ++ ex_items o |}.

Definition ex_get_n (s : exact_sketch) : Z := ssize (ex_items s).

Definition ex_is_empty (s : exact_sketch) : bool := ex_get_n s =? 0.

Definition ex_extreme (keep : Q → Q → bool) (s : exact_sketch) : exn + Q :=
  match ex_items s with
  | [] => inl empty_error
  | x :: l => inr (fold_left (λ m y, if keep y m then y else m) l x)
  end.

Definition ex_get_min_item : exact_sketch → exn + Q := ex_extreme Qle_bool.
Definition ex_get_max_item : exact_sketch → exn + Q :=
  ex_extreme (λ y m, Qle_bool m y).

Fixpoint insert_sorted (x : Q) (l : list Q) : list Q :=
  match l with
  | [] => [x]
  | y :: l' => if Qle_bool x y then x :: l else y :: insert_sorted x l'
  end.

Definition sorted_items (s : exact_sketch) : list Q :=
  fold_right insert_sorted [] (ex_items s).

(** The share of the items that are at most [v]. *)
Definition rank_of (s : exact_sketch) (v : Q) : Q :=
  Qred (Z.of_nat (length (filter (λ x, Is_true (Qle_bool x v)) (ex_items s)))
        # Z.to_pos (ex_get_n s)).

Definition ex_get_rank (s : exact_sketch) (v : Q) : exn + Q :=
  if ex_is_empty s then inl empty_error else inr (rank_of s v).

(** The least item whose rank reaches [r]. *)
Definition ex_get_quantile (s : exact_sketch) (r : Q) : exn + Q :=
  match sorted_items s with
  | [] => inl empty_error
  | x :: l =>
      inr (default (List.last l x)
             (List.find (λ y, Qle_bool r (rank_of s y)) (x :: l)))
  end.

Definition ex_get_CDF (s : exact_sketch) (splits : list Q) : exn + list Q :=
  if ex_is_empty s then inl empty_error
  else inr (map (rank_of s) splits ++ [1%Q]).

Fixpoint differences (prev : Q) (l : list Q) : list Q :=
  match l with
  | [] => []
  | x :: l' => Qred (x - prev) :: differences x l'
  end.

Definition ex_get_PMF (s : exact_sketch) (splits : list Q) : exn + list Q :=
  if ex_is_empty s then inl empty_error
  else inr (differences 0 (map (rank_of s) splits ++ [1%Q])).

Definition show_Q (q : Q) : string :=
  pretty (Qnum q) +:+ "/" +:+ pretty (Z.pos (Qden q)).

(** The summary ends, like every line of it, with a line feed. *)
Definition ex_to_string (s : exact_sketch) (print_levels print_items : bool) : string :=
  "### KLL sketch summary:" +:+ nl
  +:+ "   K              : " +:+ to_string_Z (ex_k s) +:+ nl
  +:+ "   N              : " +:+ to_string_Z (ex_get_n s) +:+ nl
  +:+ "### End sketch summary" +:+ nl
  +:+ (if print_items then
         "### KLL sketch data:" +:+ nl
         +:+ String.concat "" (map (λ q, "   " +:+ show_Q q +:+ nl) (ex_items s))
         +:+ "### End sketch data" +:+ nl
       else "").

(** Eight bytes, least significant first. *)
Definition byte_of_Z (z : Z) : byte :=
  default x00 (Byte.of_N (Z.to_N (z mod 256))).

Fixpoint le_bytes (n : nat) (z : Z) : list byte :=
  match n with
  | O => []
  | S n' => byte_of_Z z :: le_bytes n' (z / 256)
  end.

Definition le_value (l : list byte) : Z :=
  fold_right (λ b acc, Z.of_N (Byte.to_N b) + 256 * acc) 0 l.

Definition le_signed (l : list byte) : Z :=
  let v := le_value l in
  if v <? 2 ^ 63 then v else v - 2 ^ 64.

Definition ex_serialize (s : exact_sketch) : list byte :=
  le_bytes 8 (ex_k s) ++ le_bytes 8 (ex_get_n s)
  ++ concat (map (λ q, le_bytes 8 (Qnum q) ++ le_bytes 8 (Z.pos (Qden q)))
               (ex_items s)).

Fixpoint read_items (n : nat) (l : list byte) : option (list Q) :=
  match n with
  | O => match l with [] => Some [] | _ => None end
  | S n' =>
      let num := le_signed (take 8 l) in
      let den := le_value (take 8 (drop 8 l)) in
      if (length l <? 16)%nat || (den <=? 0) then None
      else option_map (cons (num # Z.to_pos den)) (read_items n' (drop 16 l))
  end.

Definition malformed : exn := engine_error "malformed sketch image".

(** The engine is given the address of the bytes and a length. *)
Definition ex_deserialize (bytes : list byte) (size : Z) : exn + exact_sketch :=
  if (size <? 16) || (ssize bytes <? size) then inl malformed
  else
    let image := take (Z.to_nat size) bytes in
    let k := le_value (take 8 image) in
    let n := le_value (take 8 (drop 8 image)) in
    if negb (ssize image =? 16 + 16 * n) then inl malformed
    else match read_items (Z.to_nat n) (drop 16 image) with
         | Some l => inr {| ex_k := k; ex_items := l |}
         | None => inl malformed
         end.

Definition engine : KllEngine := {|
  T := Q;
  double := Q;
  float := Q;
  T_zero := 0%Q;
  float_zero := 0%Q;
  double_to_float := λ x, x;
  double_to_T := λ x, x;
  kll_sketch := exact_sketch;
  sk_new := ex_new;
  sk_update := ex_update;
  sk_merge := ex_merge;
  sk_is_empty := ex_is_empty;
  sk_get_n := ex_get_n;
  sk_get_min_item := ex_get_min_item;
  sk_get_max_item := ex_get_max_item;
  sk_get_quantile := ex_get_quantile;
  sk_get_rank := ex_get_rank;
  sk_get_PMF := ex_get_PMF;
  sk_get_CDF := ex_get_CDF;
  sk_to_string := ex_to_string;
  sk_serialize := ex_serialize;
  sk_deserialize := ex_deserialize;
|}.

(** A two-dimensional array given by its rows. *)
Definition array2 (contig : contiguity) (rows : list (list Q)) : ndarray Q := {|
  nd_shape := [ssize rows; ssize (default [] (head rows))];
  nd_contig := contig;
  nd_item := λ ix,
    match ix with
    | [i; j] => default 0%Q (row ← vec_at rows i; vec_at row j)
    | _ => 0%Q
    end;
|}.

Definition array1 (xs : list Q) : ndarray Q := {|
  nd_shape := [ssize xs];
  nd_contig := c_contig;
  nd_item := λ ix, match ix with [i] => default 0%Q (vec_at xs i) | _ => 0%Q end;
|}.

(** Construct with [(k, d)], then submit the arrays in turn. *)
Definition fed (k d : Z) (inputs : list (ndarray Q))
  : answer (vector_of_kll_sketches (E := engine)) :=
  match new_vector_of_kll_sketches (E := engine) k d with
  | Value c =>
      eval_local (mapM (λ a, update (E := engine) a) inputs ;; get) c
  | Raised e => Raised e
  | Undefined f => Undefined f
  end.

End Exact.

(** ** Containers to evaluate on *)

Definition two_rows : ndarray Q := Exact.array2 c_contig [[1; 2]; [3; 4]]%Q.

(** The container [(k = 200, d = 2)] after [update([[1, 2], [3, 4]])]. *)
Definition after_two_rows : vector_of_kll_sketches (E := Exact.engine) :=
  @Build_vector_of_kll_sketches Exact.engine 200 2
    [ {| Exact.ex_k := 200; Exact.ex_items := [1; 3]%Q |};
      {| Exact.ex_k := 200; Exact.ex_items := [2; 4]%Q |} ].

(** A second container, [(k = 200, d = 2)] after [update([[5, 6]])]. *)
Definition after_one_row : vector_of_kll_sketches (E := Exact.engine) :=
  @Build_vector_of_kll_sketches Exact.engine 200 2
    [ {| Exact.ex_k := 200; Exact.ex_items := [5]%Q |};
      {| Exact.ex_k := 200; Exact.ex_items := [6]%Q |} ].

Definition two_containers : gmap nat (vector_of_kll_sketches (E := Exact.engine)) :=
  <[0%nat := after_two_rows]> (<[1%nat := after_one_row]> ∅).

Definition seven : Exact.exact_sketch :=
  {| Exact.ex_k := 200; Exact.ex_items := [7]%Q |}.

(** ** Three claims in the words of the specification *)

(** A message mentions a number when the number's decimal form is part
    of it. *)
Definition mentions (msg : string) (v : Z) : Prop :=
  ∃ before after, msg = before +:+ to_string_Z v +:+ after.

(** The resolver as the specification words it: the sentinel, the single
    index, and for more than one element the check [0 <= v < d] with a
    failure that mentions [d] and the offending [v]. *)
Definition resolves_as_specified (d : Z) (isk : list Z) : Prop :=
  (isk = [-1] → get_indices d isk = Value (seqZ 0 d)) ∧
  (∀ v, isk = [v] → 0 ≤ v → get_indices d isk = Value [v]) ∧
  ((1 < length isk)%nat →
     (Forall (λ v, 0 ≤ v < d) isk → get_indices d isk = Value isk) ∧
     (∀ pre v post,
        isk = pre ++ v :: post → Forall (λ w, 0 ≤ w < d) pre → ¬ (0 ≤ v < d) →
        ∃ msg, get_indices d isk = Raised (invalid_argument msg)
               ∧ mentions msg d ∧ mentions msg v)).


(** ** Uses of the container the further properties speak of *)

(** Row [i] of a two-dimensional array, as a one-dimensional array of
    length [d]. *)
Definition row_of {V} (items : ndarray V) (d i : Z) : ndarray V := {|
  nd_shape := [d];
  nd_contig := nd_contig items;
  nd_item := λ ix, match ix with [j] => nd_item items [i; j] | _ => nd_item items ix end;
|}.

(** [update] called once per row, first row first. *)
Definition update_by_rows {E : KllEngine} (items : ndarray T) (d n : Z)
  : M vector_of_kll_sketches unit :=
  for_lt n (λ i, update (row_of items d i)).

(** [deserialize(blobs[i], i)] for every [i], in order; [size_of] gives
    the length handed to the engine with each blob. *)
Definition deserialize_all {E : KllEngine} (size_of : list byte → Z)
    (blobs : list (list byte)) : M vector_of_kll_sketches unit :=
  for_lt (ssize blobs) (λ i,
    b ← in_range (vec_at blobs i);
    deserialize (size_of b) b i).

(** [c'] has the parameters of [c] and as many sketches. *)
Definition same_frame {E : KllEngine} (c c' : vector_of_kll_sketches) : Prop :=
  k_ c' = k_ c ∧ d_ c' = d_ c ∧ ssize (sketches_ c') = ssize (sketches_ c).

(** [get_num_retained] and [is_estimation_mode]: the engine's accessors
    of these names are arguments here. *)
Definition get_num_retained {E : KllEngine} (sk_get_num_retained : kll_sketch → Z)
    (c : vector_of_kll_sketches) : answer (array1d Z) :=
  per_sketch c 0 (λ s, mret (sk_get_num_retained s)).

Definition is_estimation_mode {E : KllEngine}
    (sk_is_estimation_mode : kll_sketch → bool)
    (c : vector_of_kll_sketches) : answer (array1d bool) :=
  per_sketch c false (λ s, mret (sk_is_estimation_mode s)).

(** ** Further inputs to evaluate on *)

(** An array of the given shape whose every element is 0. *)
Definition zeros (shape : list Z) : ndarray Q :=
  {| nd_shape := shape; nd_contig := c_contig; nd_item := λ _, 0%Q |}.

(** The container [(k = 200, d = 2)] as constructed. *)
Definition fresh_pair : vector_of_kll_sketches (E := Exact.engine) :=
  @Build_vector_of_kll_sketches Exact.engine 200 2
    [ {| Exact.ex_k := 200; Exact.ex_items := [] |};
      {| Exact.ex_k := 200; Exact.ex_items := [] |} ].

(** * Properties *)

(** ** Running the monad *)

Lemma run_bind {St A B} (m : M St A) (f : A → M St B) (s : St) :
  (m ≫= f) s = match m s with
               | Ret a s' => f a s'
               | Throw e s' => Throw e s'
               | Fault x => Fault x
               end.
Proof. reflexivity. Qed.

Lemma run_bind_ret {St A B} (m : M St A) (f : A → M St B) s a s' :
  m s = Ret a s' → (m ≫= f) s = f a s'.
Proof. intros H. rewrite run_bind, H. reflexivity. Qed.

Lemma run_bind_throw {St A B} (m : M St A) (f : A → M St B) s e s' :
  m s = Throw e s' → (m ≫= f) s = Throw e s'.
Proof. intros H. rewrite run_bind, H. reflexivity. Qed.

Lemma run_bind_fault {St A B} (m : M St A) (f : A → M St B) s x :
  m s = Fault x → (m ≫= f) s = Fault x.
Proof. intros H. rewrite run_bind, H. reflexivity. Qed.

Lemma bind_in_range {St A B} (o : option A) a (f : A → M St B) s :
  o = Some a → (in_range o ≫= f) s = f a s.
Proof. by intros ->. Qed.

Lemma bind_engine {St A B} (r : exn + A) a (f : A → M St B) s :
  r = inr a → (engine r ≫= f) s = f a s.
Proof. by intros ->. Qed.

Lemma bind_call {St A B} (r : answer A) a (f : A → M St B) s :
  r = Value a → (call r ≫= f) s = f a s.
Proof. by intros ->. Qed.

Lemma bind_put {St B} (x : St) (f : unit → M St B) s : (put x ≫= f) s = f tt x.
Proof. reflexivity. Qed.

Lemma bind_get {St B} (f : St → M St B) s : (get ≫= f) s = f s s.
Proof. reflexivity. Qed.

Ltac run :=
  repeat first
    [ rewrite run_bind
    | progress unfold mret, M_mret, throw, fault_with, get, put, modify,
        in_range, engine, call
    | progress cbn beta iota ].

Lemma loop_S {St} n i (body : Z → M St unit) s :
  loop (S n) i body s = (body i ;; loop n (i + 1) body) s.
Proof. reflexivity. Qed.

(** The invariant rule for a loop none of whose steps throws. *)
Lemma loop_ret {St} (I : Z → St → Prop) n i (body : Z → M St unit) s :
  I i s →
  (∀ k s, i ≤ k < i + Z.of_nat n → I k s →
     ∃ s', body k s = Ret tt s' ∧ I (k + 1) s') →
  ∃ s', loop n i body s = Ret tt s' ∧ I (i + Z.of_nat n) s'.
Proof.
  revert i s. induction n as [|n IH]; intros i s Hi Hstep.
  - exists s. split; [reflexivity|]. by replace (i + Z.of_nat 0) with i by lia.
  - destruct (Hstep i s) as (s1 & Hb & H1); [lia|done|].
    destruct (IH (i + 1) s1 H1) as (s2 & Hl & H2).
    { intros k s' Hk. apply Hstep. lia. }
    exists s2. split.
    + rewrite loop_S. by rewrite (run_bind_ret _ _ _ _ _ Hb).
    + by replace (i + Z.of_nat (S n)) with (i + 1 + Z.of_nat n) by lia.
Qed.

Lemma for_lt_ret {St} (I : Z → St → Prop) bound (body : Z → M St unit) s :
  0 ≤ bound →
  I 0 s →
  (∀ k s, 0 ≤ k < bound → I k s → ∃ s', body k s = Ret tt s' ∧ I (k + 1) s') →
  ∃ s', for_lt bound body s = Ret tt s' ∧ I bound s'.
Proof.
  intros Hb H0 Hstep. unfold for_lt.
  destruct (loop_ret I (Z.to_nat bound) 0 body s H0) as (s' & Hl & Hs').
  { intros k s1 Hk. apply Hstep. lia. }
  exists s'. split; [done|]. by replace bound with (0 + Z.of_nat (Z.to_nat bound)) by lia.
Qed.

Lemma for_u32_ret {St} (I : Z → St → Prop) bound (body : Z → M St unit) s :
  0 ≤ bound ≤ u32_max →
  I 0 s →
  (∀ k s, 0 ≤ k < bound → I k s → ∃ s', body k s = Ret tt s' ∧ I (k + 1) s') →
  ∃ s', for_u32 bound body s = Ret tt s' ∧ I bound s'.
Proof.
  intros [Hb Hu] H0 Hstep. unfold for_u32.
  destruct (Z.leb_spec bound u32_max); [|lia]. by apply for_lt_ret.
Qed.

(** ** Vectors *)

Lemma ssize_nonneg {A} (l : list A) : 0 ≤ ssize l.
Proof. unfold ssize. lia. Qed.

Lemma vec_at_Some {A} (l : list A) i x :
  vec_at l i = Some x ↔ 0 ≤ i ∧ l !! Z.to_nat i = Some x.
Proof.
  unfold vec_at, ssize. split.
  - destruct (Z.leb_spec 0 i), (Z.ltb_spec i (Z.of_nat (length l))); naive_solver.
  - intros [Hi Hx]. pose proof (lookup_lt_Some _ _ _ Hx).
    destruct (Z.leb_spec 0 i), (Z.ltb_spec i (Z.of_nat (length l))); try done; lia.
Qed.

Lemma vec_at_in {A} (l : list A) i :
  0 ≤ i < ssize l → ∃ x, vec_at l i = Some x ∧ l !! Z.to_nat i = Some x.
Proof.
  unfold ssize. intros Hi.
  destruct (lookup_lt_is_Some_2 l (Z.to_nat i)) as [x Hx]; [lia|].
  exists x. split; [|done]. apply vec_at_Some. split; [lia|done].
Qed.

Lemma vec_at_out {A} (l : list A) i : ssize l ≤ i → vec_at l i = None.
Proof.
  unfold vec_at. intros Hi.
  destruct (Z.leb_spec 0 i), (Z.ltb_spec i (ssize l)); try done; lia.
Qed.

Lemma vec_at_of_nat {A} (l : list A) (n : nat) : vec_at l (Z.of_nat n) = l !! n.
Proof.
  unfold vec_at, ssize. rewrite Nat2Z.id.
  destruct (Z.leb_spec 0 (Z.of_nat n)); [|lia].
  destruct (Z.ltb_spec (Z.of_nat n) (Z.of_nat (length l))); [done|].
  symmetry. apply lookup_ge_None. lia.
Qed.

Lemma vec_set_in {A} (l : list A) i x :
  0 ≤ i < ssize l → vec_set l i x = Some (<[Z.to_nat i := x]> l).
Proof.
  unfold vec_set. intros Hi.
  destruct (Z.leb_spec 0 i), (Z.ltb_spec i (ssize l)); try done; lia.
Qed.

Lemma ssize_insert {A} (l : list A) n x : ssize (<[n := x]> l) = ssize l.
Proof. unfold ssize. by rewrite length_insert. Qed.

Lemma ssize_app {A} (l1 l2 : list A) : ssize (l1 ++ l2) = ssize l1 + ssize l2.
Proof. unfold ssize. rewrite length_app. lia. Qed.

(** ** The index resolver *)

Lemma to_u32_nonneg v : 0 ≤ v → is_int v → to_u32 v = v.
Proof.
  unfold is_int, int_max, to_u32. intros H0 [_ H1]. apply Z.mod_small. lia.
Qed.

Lemma to_u32_neg v : v < 0 → is_int v → to_u32 v = v + 4294967296.
Proof.
  unfold is_int, int_min, to_u32. intros H0 [H1 _].
  symmetry. apply (Z.mod_unique _ _ (-1)); lia.
Qed.

Lemma run_push_back {A} (x : A) (v : list A) : push_back x v = Ret tt (v ++ [x]).
Proof. reflexivity. Qed.

Lemma loop_push_back n i (acc : list Z) :
  loop n i (λ i, push_back i) acc = Ret tt (acc ++ seqZ i (Z.of_nat n)).
Proof.
  revert i acc. induction n as [|n IH]; intros i acc.
  - cbn. by rewrite app_nil_r.
  - rewrite loop_S, run_bind. cbn beta. rewrite run_push_back, IH.
    rewrite (seqZ_cons i (Z.of_nat (S n))) by lia.
    replace (Z.pred (Z.of_nat (S n))) with (Z.of_nat n) by lia.
    replace (Z.succ i) with (i + 1) by lia.
    by rewrite <- app_assoc.
Qed.

Lemma loop_scan d_ (l2 l1 acc : list Z) :
  eval_local
    (loop (length l2) (ssize l1) (λ i,
       v ← in_range (vec_at (l1 ++ l2) i);
       let idx := to_u32 v in
       if idx <? d_ then push_back idx
       else throw (invalid_dimensions d_ idx)) ;; get) acc
  = scan d_ l2 acc.
Proof.
  revert l1 acc. induction l2 as [|v l2 IH]; intros l1 acc.
  - reflexivity.
  - specialize (IH (l1 ++ [v]) (acc ++ [to_u32 v])).
    rewrite <- app_assoc in IH. cbn [app] in IH.
    rewrite ssize_app in IH. change (ssize [v]) with 1 in IH.
    cbn [length scan]. unfold eval_local in *.
    rewrite run_bind, loop_S, run_bind, run_bind.
    assert (vec_at (l1 ++ v :: l2) (ssize l1) = Some v) as ->.
    { unfold ssize. rewrite vec_at_of_nat. by rewrite list_lookup_middle. }
    run. destruct (to_u32 v <? d_); [|done]. rewrite run_push_back.
    rewrite run_bind in IH. exact IH.
Qed.

Lemma get_indices_all d_ : get_indices d_ [-1] = Value (seqZ 0 d_).
Proof.
  unfold get_indices, eval_local.
  change (ssize [-1] =? 1) with true. change (vec_at [-1] 0) with (Some (-1)).
  run. change (-1 =? -1) with true. run. unfold for_lt.
  rewrite loop_push_back. run. cbn [app]. f_equal.
  destruct (Z.le_gt_cases 0 d_).
  - by rewrite Z2Nat.id.
  - rewrite Z2Nat.nonpos by lia. by rewrite !seqZ_nil by lia.
Qed.

Lemma get_indices_one d_ v : v ≠ -1 → get_indices d_ [v] = Value [to_u32 v].
Proof.
  intros Hv. unfold get_indices, eval_local.
  change (ssize [v] =? 1) with true. change (vec_at [v] 0) with (Some v).
  run. destruct (Z.eqb_spec v (-1)); [done|]. unfold push_back. by run.
Qed.

Lemma get_indices_many d_ isk :
  length isk ≠ 1%nat → ssize isk ≤ u32_max →
  get_indices d_ isk = scan d_ isk [].
Proof.
  intros Hlen Hsz. unfold get_indices.
  destruct (Z.eqb_spec (ssize isk) 1) as [H1|_]; [unfold ssize in H1; lia|].
  unfold for_u32. destruct (Z.leb_spec (ssize isk) u32_max); [|lia].
  unfold for_lt, ssize. rewrite Nat2Z.id.
  apply (loop_scan d_ isk [] []).
Qed.

Lemma scan_accepts d_ l acc :
  Forall (λ v, to_u32 v < d_) l → scan d_ l acc = Value (acc ++ (to_u32 <$> l)).
Proof.
  revert acc. induction l as [|v l IH]; intros acc Hl.
  - cbn. by rewrite app_nil_r.
  - inversion Hl as [|? ? Hv Hl']; subst. cbn [scan fmap list_fmap].
    destruct (Z.ltb_spec (to_u32 v) d_); [|lia].
    rewrite IH by done. by rewrite <- app_assoc.
Qed.

Lemma scan_rejects d_ pre v post acc :
  Forall (λ v, to_u32 v < d_) pre → d_ ≤ to_u32 v →
  scan d_ (pre ++ v :: post) acc = Raised (invalid_dimensions d_ (to_u32 v)).
Proof.
  revert acc. induction pre as [|w pre IH]; intros acc Hpre Hv.
  - cbn [app scan]. destruct (Z.ltb_spec (to_u32 v) d_); [lia|done].
  - inversion Hpre as [|? ? Hw Hpre']; subst. cbn [app scan].
    destruct (Z.ltb_spec (to_u32 w) d_); [|lia]. by apply IH.
Qed.

Lemma fmap_to_u32_id l :
  Forall (λ v, 0 ≤ v) l → Forall is_int l → to_u32 <$> l = l.
Proof.
  induction 1 as [|v l Hv Hl IH]; intros Hint; [done|].
  inversion Hint; subst. cbn. rewrite to_u32_nonneg by done. f_equal. by apply IH.
Qed.

Lemma chars_app (a b : string) :
  list_ascii_of_string (a +:+ b)
  = list_ascii_of_string a ++ list_ascii_of_string b.
Proof.
  induction a as [|c a IH]; [done|].
  change (c :: list_ascii_of_string (a +:+ b)
          = c :: (list_ascii_of_string a ++ list_ascii_of_string b)).
  by rewrite IH.
Qed.

Lemma string_app_nil_r (a : string) : a +:+ "" = a.
Proof.
  induction a as [|c a IH]; [done|].
  change (String c (a +:+ "") = String c a). by rewrite IH.
Qed.

Lemma string_app_assoc (a b c : string) : (a +:+ b) +:+ c = a +:+ b +:+ c.
Proof.
  induction a as [|x a IH]; [done|].
  change (String x ((a +:+ b) +:+ c) = String x (a +:+ b +:+ c)). by rewrite IH.
Qed.

Lemma mentions_chars msg v c :
  mentions msg v → c ∈ list_ascii_of_string (to_string_Z v) →
  c ∈ list_ascii_of_string msg.
Proof.
  intros (before & after & ->) Hc. rewrite !chars_app. set_solver.
Qed.

Lemma invalid_dimensions_mentions d_ idx :
  ∃ msg, invalid_dimensions d_ idx = invalid_argument msg
         ∧ mentions msg d_ ∧ mentions msg idx.
Proof.
  eexists. split; [reflexivity|]. split.
  - exists "request for invalid dimensions >= d (", ("): " +:+ to_string_Z idx).
    reflexivity.
  - exists ("request for invalid dimensions >= d (" +:+ to_string_Z d_ +:+ "): "), "".
    rewrite string_app_nil_r. by rewrite !string_app_assoc.
Qed.

(** C2, as stated, fails.  With [d = 2] the selector [[-1; 0]] is refused
    with a message that shows 4294967295, not the offending -1; and with
    [d = 4294967295] the selector [[-2; 0]], whose first element is not in
    [0 <= v < d], is accepted as [[4294967294; 0]]. *)
Lemma get_indices_not_as_specified :
  ¬ resolves_as_specified 2 [-1; 0] ∧ ¬ resolves_as_specified 4294967295 [-2; 0].
Proof.
  split.
  - intros (_ & _ & H). destruct (H ltac:(cbn; lia)) as [_ H2].
    destruct (H2 [] (-1) [0] eq_refl) as (msg & Hmsg & _ & Hv); [constructor|lia|].
    vm_compute in Hmsg. injection Hmsg as <-.
    pose proof (mentions_chars _ _ "-"%char Hv) as Hin.
    assert ("-"%char ∈ list_ascii_of_string (to_string_Z (-1))) as Hc
      by (vm_compute; constructor).
    specialize (Hin Hc). revert Hin.
    apply (proj1 (bool_decide_eq_false _)). vm_compute. reflexivity.
  - intros (_ & _ & H). destruct (H ltac:(cbn; lia)) as [_ H2].
    destruct (H2 [] (-2) [0] eq_refl) as (msg & Hmsg & _); [constructor|lia|].
    vm_compute in Hmsg. discriminate Hmsg.
Qed.

(** C2, amended.  For a 32-bit width [d] and a selector of C ints:
    [[-1]] resolves to [0 .. d-1]; a single [v >= 0] to [[v]], unchecked;
    a selector of another length whose elements all satisfy [0 <= v < d]
    resolves to itself, order and duplicates kept; and at its first
    element [v] whose conversion to [uint32_t] is not below [d] the call
    throws invalid-argument with a message that mentions [d] and that
    converted value.  For [d <= 2^31] the test on the converted value is
    the test [0 <= v < d]. *)
Theorem get_indices_resolves (d : Z) (isk : list Z) :
  is_u32 d → Forall is_int isk → ssize isk ≤ u32_max →
  (isk = [-1] → get_indices d isk = Value (seqZ 0 d)) ∧
  (∀ v, isk = [v] → 0 ≤ v → get_indices d isk = Value [v]) ∧
  (length isk ≠ 1%nat →
     (Forall (λ v, 0 ≤ v < d) isk → get_indices d isk = Value isk) ∧
     (∀ pre v post,
        isk = pre ++ v :: post → Forall (λ w, to_u32 w < d) pre → d ≤ to_u32 v →
        get_indices d isk = Raised (invalid_dimensions d (to_u32 v))
        ∧ ∃ msg, invalid_dimensions d (to_u32 v) = invalid_argument msg
                 ∧ mentions msg d ∧ mentions msg (to_u32 v))) ∧
  (d ≤ 2147483648 → ∀ v, is_int v → to_u32 v < d ↔ 0 ≤ v < d).
Proof.
  intros Hd Hint Hsz. split; [|split; [|split]].
  - intros ->. apply get_indices_all.
  - intros v -> Hv. rewrite get_indices_one by lia.
    inversion Hint; subst. by rewrite to_u32_nonneg.
  - intros Hlen. split.
    + intros Hall. rewrite get_indices_many by done.
      assert (Forall (λ v, 0 ≤ v) isk) as Hpos
        by (eapply Forall_impl; [exact Hall|]; cbn; lia).
      rewrite scan_accepts.
      * cbn. by rewrite fmap_to_u32_id.
      * rewrite Forall_forall in *. intros v Hv.
        rewrite to_u32_nonneg; [apply Hall, Hv|apply Hpos, Hv|apply Hint, Hv].
    + intros pre v post Hisk Hpre Hv. split.
      * rewrite get_indices_many by done. subst isk. by apply scan_rejects.
      * apply invalid_dimensions_mentions.
  - intros Hd31 v Hv. pose proof Hv as [Hlo Hhi].
    unfold int_min, int_max in Hlo, Hhi. destruct (Z.lt_ge_cases v 0).
    + rewrite to_u32_neg by done. lia.
    + rewrite to_u32_nonneg by done. lia.
Qed.

Lemma get_indices_resolves_witness :
  get_indices 3 [2; 0; 2] = Value [2; 0; 2].
Proof.
  refine (proj1 (proj1 (proj2 (proj2
            (get_indices_resolves 3 [2; 0; 2] _ _ _))) _) _).
  - unfold is_u32, u32_max. lia.
  - repeat constructor; unfold is_int, int_min, int_max; lia.
  - unfold ssize, u32_max. cbn. lia.
  - cbn. lia.
  - repeat constructor; lia.
Defined.

Lemma for_int_ret {St} (I : Z → St → Prop) bound (body : Z → M St unit) s :
  0 ≤ bound ≤ int_max →
  I 0 s →
  (∀ k s, 0 ≤ k < bound → I k s → ∃ s', body k s = Ret tt s' ∧ I (k + 1) s') →
  ∃ s', for_int bound body s = Ret tt s' ∧ I bound s'.
Proof.
  intros [Hb Hu] H0 Hstep. unfold for_int.
  destruct (Z.leb_spec bound int_max); [|lia]. by apply for_lt_ret.
Qed.

Section ContainerFacts.
Context {E : KllEngine}.
Implicit Types c : vector_of_kll_sketches.
Local Abbreviation store := (gmap nat vector_of_kll_sketches).

(** ** Construction *)

Lemma new_builds k d s0 :
  1 ≤ d ≤ u32_max → sk_new k = inr s0 →
  new_vector_of_kll_sketches k d
  = Value {| k_ := k; d_ := d; sketches_ := replicate (Z.to_nat d) s0 |}
  ∧ container_ok {| k_ := k; d_ := d; sketches_ := replicate (Z.to_nat d) s0 |}.
Proof.
  intros Hd Hnew. split.
  - unfold new_vector_of_kll_sketches, eval_local.
    destruct (Z.ltb_spec d 1); [lia|]. rewrite run_bind.
    destruct (for_lt_ret
      (λ i (l : list kll_sketch), l = replicate (Z.to_nat i) s0) d
      (λ _, s ← engine (sk_new k); push_back s) [])
      as (l & Hrun & ->); [lia|done| |].
    + intros i l Hi ->. eexists. split.
      { rewrite (bind_engine _ _ _ _ Hnew). apply run_push_back. }
      replace (Z.to_nat (i + 1)) with (S (Z.to_nat i)) by lia.
      by rewrite replicate_S_end.
    + by rewrite Hrun.
  - split; [done|]. cbn. unfold ssize. rewrite length_replicate. lia.
Qed.

(** ** Rejections *)

Lemma new_rejects_zero k :
  new_vector_of_kll_sketches k 0 = Raised (invalid_argument "D must be >= 1: 0").
Proof. reflexivity. Qed.

Lemma update_rejects_row_length c items last :
  vec_at (nd_shape items) (ssize (nd_shape items) - 1) = Some last →
  last ≠ d_ c →
  update items c = Throw (wrong_row_length (d_ c) last) c.
Proof.
  intros Hlast Hne. unfold update. run. rewrite Hlast. run.
  by destruct (Z.eqb_spec last (d_ c)).
Qed.

Lemma update_rejects_ndim c items :
  2 < ssize (nd_shape items) →
  ∃ msg, update items c = Throw (invalid_argument msg) c.
Proof.
  intros Hnd.
  destruct (vec_at_in (nd_shape items) (ssize (nd_shape items) - 1))
    as (last & Hlast & _); [lia|].
  unfold update. run. rewrite Hlast. run.
  destruct (Z.eqb_spec last (d_ c)); cbn [negb]; [|by eexists].
  destruct (Z.eqb_spec (ssize (nd_shape items)) 1); [lia|].
  destruct (Z.eqb_spec (ssize (nd_shape items)) 2); [lia|].
  by eexists.
Qed.

Lemma deserialize_rejects c len bytes idx :
  d_ c ≤ idx →
  deserialize len bytes idx c = Throw (invalid_dimensions (d_ c) idx) c.
Proof.
  intros Hidx. unfold deserialize. run.
  by destruct (Z.leb_spec (d_ c) idx); [|lia].
Qed.

Lemma run_deref (h : store) p c : h !! p = Some c → deref p h = Ret c h.
Proof. intros H. unfold deref. run. by rewrite H. Qed.

Lemma merge_rejects (h : store) this other a b :
  h !! this = Some a → h !! other = Some b → d_ a ≠ d_ b →
  merge this other h = Throw (different_dimensions (d_ a) (d_ b)) h.
Proof.
  intros Ha Hb Hne. unfold merge.
  rewrite (run_bind_ret _ _ _ _ _ (run_deref _ _ _ Ha)).
  rewrite (run_bind_ret _ _ _ _ _ (run_deref _ _ _ Hb)).
  unfold get_d. by destruct (Z.eqb_spec (d_ a) (d_ b)).
Qed.

(** C3.  Each rejected call throws invalid-argument and leaves the state
    it was called on: construction with [d = 0]; [update] with a last-axis
    extent other than [d]; [update] with more than two dimensions;
    [deserialize] with [idx >= d]; [merge] with a container of another
    [d], where the store holding both containers is left as it was, so no
    sketch was merged. *)
Theorem rejections_leave_state :
  (∀ k, ∃ msg, new_vector_of_kll_sketches k 0 = Raised (invalid_argument msg)) ∧
  (∀ c items last,
     vec_at (nd_shape items) (ssize (nd_shape items) - 1) = Some last →
     last ≠ d_ c →
     ∃ msg, update items c = Throw (invalid_argument msg) c) ∧
  (∀ c items,
     2 < ssize (nd_shape items) →
     ∃ msg, update items c = Throw (invalid_argument msg) c) ∧
  (∀ c len bytes idx,
     d_ c ≤ idx →
     ∃ msg, deserialize len bytes idx c = Throw (invalid_argument msg) c) ∧
  (∀ (h : store) this other a b,
     h !! this = Some a → h !! other = Some b → d_ a ≠ d_ b →
     ∃ msg, merge this other h = Throw (invalid_argument msg) h).
Proof.
  split; [|split; [|split; [|split]]].
  - intros k. eexists. apply new_rejects_zero.
  - intros c items last Hlast Hne. eexists.
    by apply update_rejects_row_length.
  - apply update_rejects_ndim.
  - intros c len bytes idx Hidx. eexists. by apply deserialize_rejects.
  - intros h this other a b Ha Hb Hne. eexists. by apply merge_rejects.
Qed.

(** ** deserialize *)

Lemma deserialize_installs c len bytes idx s :
  container_ok c → 0 ≤ idx < d_ c →
  sk_deserialize bytes len = inr s →
  deserialize len bytes idx c
  = Ret tt (with_sketches c (<[Z.to_nat idx := s]> (sketches_ c))).
Proof.
  intros [Hd Hsz] Hidx Hs. unfold deserialize. run.
  destruct (Z.leb_spec (d_ c) idx); [lia|]. rewrite Hs. run.
  rewrite vec_set_in by lia. by run.
Qed.

Lemma container_ok_with_sketches c l :
  container_ok c → ssize l = ssize (sketches_ c) → container_ok (with_sketches c l).
Proof. intros [Hd Hsz] Hl. split; cbn; [done|]. by rewrite Hl. Qed.

Lemma vec_at_insert {A} (l : list A) (i j : Z) x :
  0 ≤ i → vec_at (<[Z.to_nat i := x]> l) j
          = if decide (i = j) then (if j <? ssize l then Some x else None)
            else vec_at l j.
Proof.
  intros Hi. unfold vec_at. rewrite ssize_insert.
  destruct (Z.leb_spec 0 j), (Z.ltb_spec j (ssize l)); cbn [andb];
    destruct (decide (i = j)) as [->|Hne]; try done.
  - apply list_lookup_insert_eq. unfold ssize in *. lia.
  - apply list_lookup_insert_ne. lia.
  - lia.
Qed.

(** C8.  For [0 <= idx < d] and bytes from which the engine reconstructs
    a sketch [s], [deserialize] returns with [S[idx] = s] and every other
    channel, [k] and [d] as before; bytes the engine refuses leave the
    container as it was.  In particular the blob [serialize([idx])]
    returned for a container, read back at [idx] into a container whose
    channel has changed since, restores that channel (the engine reading
    its own image back) and leaves every other channel alone. *)
Theorem deserialize_replaces_one c len bytes idx :
  container_ok c → 0 ≤ idx < d_ c →
  (∀ s, sk_deserialize bytes len = inr s →
     ∃ c', deserialize len bytes idx c = Ret tt c'
           ∧ container_ok c' ∧ k_ c' = k_ c ∧ d_ c' = d_ c
           ∧ vec_at (sketches_ c') idx = Some s
           ∧ ∀ j, j ≠ idx → vec_at (sketches_ c') j = vec_at (sketches_ c) j) ∧
  (∀ e, sk_deserialize bytes len = inl e →
     deserialize len bytes idx c = Throw e c) ∧
  (∀ c0 s0,
     container_ok c0 → d_ c0 = d_ c → is_int idx →
     vec_at (sketches_ c0) idx = Some s0 →
     bytes = sk_serialize s0 →
     sk_deserialize bytes len = inr s0 →
     serialize c0 [idx] = Value [bytes]
     ∧ ∃ c', deserialize len bytes idx c = Ret tt c'
             ∧ vec_at (sketches_ c') idx = vec_at (sketches_ c0) idx
             ∧ ∀ j, j ≠ idx → vec_at (sketches_ c') j = vec_at (sketches_ c) j).
Proof.
  intros Hok Hidx.
  assert (∀ s, sk_deserialize bytes len = inr s →
     ∃ c', deserialize len bytes idx c = Ret tt c'
           ∧ container_ok c' ∧ k_ c' = k_ c ∧ d_ c' = d_ c
           ∧ vec_at (sketches_ c') idx = Some s
           ∧ ∀ j, j ≠ idx → vec_at (sketches_ c') j = vec_at (sketches_ c) j)
    as Hinstall.
  { intros s Hs. eexists. split; [by apply deserialize_installs|].
    destruct Hok as [Hd Hsz].
    split; [|split; [done|split; [done|split]]].
    - apply container_ok_with_sketches; [done|]. cbn. apply ssize_insert.
    - cbn. rewrite vec_at_insert by lia. rewrite decide_True by done.
      by destruct (Z.ltb_spec idx (ssize (sketches_ c))); [|lia].
    - intros j Hj. cbn. rewrite vec_at_insert by lia. by rewrite decide_False. }
  split; [exact Hinstall|split].
  - intros e He. unfold deserialize. run.
    destruct (Z.leb_spec (d_ c) idx); [lia|]. by rewrite He.
  - intros c0 s0 Hok0 Hd0 Hint Hs0 -> Hrt. split.
    + unfold serialize, eval_local. rewrite run_bind.
      rewrite get_indices_one.
      2:{ intros ->. lia. }
      rewrite to_u32_nonneg by (done || lia). run.
      change (ssize [idx]) with 1. unfold for_u32, for_lt.
      change (1 <=? u32_max) with true. change (Z.to_nat 1) with 1%nat.
      cbn match. rewrite loop_S, run_bind. cbn beta. unfold selected. rewrite !run_bind.
      change (vec_at [idx] 0) with (Some idx). run. rewrite Hs0. run.
      rewrite run_push_back. by run.
    + destruct (Hinstall s0 Hrt) as (c' & Hrun & _ & _ & _ & Hat & Hother).
      exists c'. by rewrite Hs0.
Qed.

(** ** to_string *)

Lemma concat_snoc (sep : string) (l : list string) (x : string) :
  l ≠ [] → String.concat sep (l ++ [x]) = (String.concat sep l +:+ sep) +:+ x.
Proof.
  induction l as [|y l IH]; [done|]. intros _.
  destruct l as [|z l].
  - cbn. by rewrite string_app_assoc.
  - change (y +:+ sep +:+ String.concat sep ((z :: l) ++ [x])
            = ((y +:+ sep +:+ String.concat sep (z :: l)) +:+ sep) +:+ x).
    rewrite IH by done. by rewrite !string_app_assoc.
Qed.

Lemma concat_terminated (l : list string) :
  l ≠ [] →
  String.concat nl ((λ t, t +:+ nl) <$> l) = String.concat (nl +:+ nl) l +:+ nl.
Proof.
  induction l as [|y l IH]; [done|]. intros _.
  destruct l as [|z l]; [done|].
  change (((y +:+ nl) +:+ nl +:+ String.concat nl ((λ t, t +:+ nl) <$> z :: l))
          = (y +:+ (nl +:+ nl) +:+ String.concat (nl +:+ nl) (z :: l)) +:+ nl).
  rewrite IH by done. by rewrite !string_app_assoc.
Qed.

Lemma to_string_joins c print_levels print_items :
  container_ok c →
  to_string c print_levels print_items
  = Value (String.concat nl
             ((λ s, sk_to_string s print_levels print_items) <$> sketches_ c)).
Proof.
  intros [Hd Hsz]. unfold to_string, eval_local. rewrite run_bind.
  set (summary := λ s, sk_to_string s print_levels print_items).
  destruct (for_lt_ret
    (λ k ss, ss = String.concat nl (summary <$> take (Z.to_nat k) (sketches_ c)))
    (d_ c)
    (λ i, (if 0 <? i then write nl else mret tt) ;;
          s ← in_range (vec_at (sketches_ c) i);
          write (sk_to_string s print_levels print_items))
    "") as (ss & Hrun & Hss); [lia|done| |].
  - intros k ss0 Hk ->.
    destruct (vec_at_in (sketches_ c) k) as (s & Hs & Hlk); [lia|].
    replace (Z.to_nat (k + 1)) with (S (Z.to_nat k)) by lia.
    rewrite (take_S_r _ _ _ Hlk), fmap_app. cbn [fmap list_fmap].
    rewrite !run_bind. destruct (Z.ltb_spec 0 k); unfold write; run;
      rewrite Hs; run; eexists; (split; [reflexivity|]).
    + rewrite concat_snoc; [done|].
      destruct (sketches_ c) as [|s0 l]; [done|].
      replace (Z.to_nat k) with (S (Z.to_nat (k - 1))) by lia. done.
    + replace k with 0 by lia. done.
  - rewrite Hrun. run. rewrite Hss. f_equal. f_equal. f_equal.
    apply take_ge. unfold ssize in Hsz. lia.
Qed.

(** C9.  [to_string] returns the summaries of the [d] sketches in channel
    order [0 .. d-1], one line feed written between consecutive summaries.
    Every summary of the engine itself ends with a line feed; with this as
    the hypothesis on the engine, the boundary between consecutive
    summaries is a blank line: the result is the summaries, each without
    its last line feed, joined by two line feeds, and one line feed closes
    it. *)
Theorem to_string_separates_by_line_feed c print_levels print_items :
  container_ok c →
  to_string c print_levels print_items
  = Value (String.concat nl
             ((λ s, sk_to_string s print_levels print_items) <$> sketches_ c))
  ∧ ∀ bodies,
      (λ s, sk_to_string s print_levels print_items) <$> sketches_ c
      = (λ t, t +:+ nl) <$> bodies →
      to_string c print_levels print_items
      = Value (String.concat (nl +:+ nl) bodies +:+ nl).
Proof.
  intros Hok. split; [by apply to_string_joins|].
  intros bodies Hb. rewrite to_string_joins by done. rewrite Hb.
  rewrite concat_terminated; [done|].
  intros ->. destruct Hok as [Hd Hsz]. apply fmap_nil_inv in Hb.
  rewrite Hb in Hsz. unfold ssize in Hsz. cbn in Hsz. lia.
Qed.

(** ** collapse *)

Lemma collapse_merges_prefix c isk r0 :
  container_ok c → ssize isk ≤ d_ c → ssize isk ≤ int_max →
  sk_new (k_ c) = inr r0 →
  collapse c isk
  = Value (fold_left sk_merge (take (length isk) (sketches_ c)) r0).
Proof.
  intros [Hd Hsz] Hlen Hmax Hnew. unfold collapse. rewrite Hnew.
  unfold eval_local. rewrite run_bind.
  destruct (for_int_ret
    (λ k r, r = fold_left sk_merge (take (Z.to_nat k) (sketches_ c)) r0)
    (ssize isk)
    (λ idx, s ← in_range (vec_at (sketches_ c) idx);
            modify (λ result, sk_merge result s))
    r0) as (r & Hrun & Hr); [pose proof (ssize_nonneg isk); lia|done| |].
  - intros k r Hk ->.
    destruct (vec_at_in (sketches_ c) k) as (s & Hs & Hlk); [lia|].
    eexists. split.
    { rewrite run_bind, Hs. by run. }
    replace (Z.to_nat (k + 1)) with (S (Z.to_nat k)) by lia.
    rewrite (take_S_r _ _ _ Hlk), fold_left_app. done.
  - rewrite Hrun. run. rewrite Hr. unfold ssize. by rewrite Nat2Z.id.
Qed.

(** ** update *)

Lemma reshaped_refl c : reshaped c c (λ _ s, s).
Proof. by repeat split. Qed.

Lemma reshaped_ext c0 c f g :
  reshaped c0 c f →
  (∀ j s, sketches_ c0 !! j = Some s → f j s = g j s) →
  reshaped c0 c g.
Proof.
  intros (Hk & Hd & Hl & Hf) Hfg. repeat split; try done.
  intros j s Hs. rewrite <- Hfg by done. by apply Hf.
Qed.

Lemma reshaped_eq c0 c1 c2 f :
  reshaped c0 c1 f → reshaped c0 c2 f → c1 = c2.
Proof.
  intros (Hk1 & Hd1 & Hl1 & Hf1) (Hk2 & Hd2 & Hl2 & Hf2).
  destruct c1 as [k1 d1 l1], c2 as [k2 d2 l2]. cbn in *. f_equal; try congruence.
  apply list_eq. intros j. destruct (sketches_ c0 !! j) as [s|] eqn:Hs.
  - by rewrite (Hf1 _ _ Hs), (Hf2 _ _ Hs).
  - apply lookup_ge_None in Hs.
    rewrite (proj2 (lookup_ge_None l1 j)) by lia.
    by rewrite (proj2 (lookup_ge_None l2 j)) by lia.
Qed.

Lemma update_sketch_step c0 c f j v :
  reshaped c0 c f → 0 ≤ j < ssize (sketches_ c0) →
  ∃ c', update_sketch j v c = Ret tt c'
        ∧ reshaped c0 c'
            (λ j' s, if decide (j' = Z.to_nat j) then sk_update (f j' s) v
                     else f j' s).
Proof.
  intros (Hk & Hd & Hl & Hf) Hj.
  destruct (vec_at_in (sketches_ c0) j) as (s0 & _ & Hs0); [done|].
  pose proof (Hf _ _ Hs0) as Hs.
  assert (vec_at (sketches_ c) j = Some (f (Z.to_nat j) s0)) as Hat
    by (apply vec_at_Some; split; [lia|done]).
  eexists. split.
  { unfold update_sketch. run. rewrite Hat. run.
    rewrite vec_set_in by (unfold ssize in *; lia). run. reflexivity. }
  repeat split; cbn; try done.
  - by rewrite length_insert.
  - intros j' s' Hs'. destruct (decide (j' = Z.to_nat j)) as [->|Hne].
    + rewrite list_lookup_insert_eq by (unfold ssize in *; lia). congruence.
    + rewrite list_lookup_insert_ne by done. by apply Hf.
Qed.

Lemma column_succ items k j :
  0 ≤ k → column items (k + 1) j = column items k j ++ [nd_item items [k; j]].
Proof.
  intros Hk. unfold column. rewrite seqZ_app by lia. rewrite fmap_app.
  assert (seqZ (0 + k) 1 = [k]) as ->; [|done].
  rewrite seqZ_cons by lia. by rewrite seqZ_nil by lia.
Qed.

Lemma length_column items n j : 0 ≤ n → ssize (column items n j) = n.
Proof. intros Hn. unfold column, ssize. rewrite length_fmap, length_seqZ. lia. Qed.

(** One row handed to every sketch: the inner loop of the row-major order. *)
Lemma row_pass c0 c items k :
  reshaped c0 c (feed items k) → 0 ≤ k → 0 ≤ d_ c0 →
  ssize (sketches_ c0) = d_ c0 →
  ∃ c', for_lt (d_ c0) (λ j, update_sketch j (nd_item items [k; j])) c = Ret tt c'
        ∧ reshaped c0 c' (feed items (k + 1)).
Proof.
  intros Hc Hk Hd Hsz.
  destruct (for_lt_ret
    (λ jj c', reshaped c0 c'
       (λ j s, if decide (Z.of_nat j < jj) then feed items (k + 1) j s
               else feed items k j s))
    (d_ c0) (λ j, update_sketch j (nd_item items [k; j])) c)
    as (c' & Hrun & Hc'); [done| | |].
  - eapply reshaped_ext; [exact Hc|]. intros j s _.
    by rewrite decide_False by lia.
  - intros jj c1 Hjj Hc1.
    destruct (update_sketch_step c0 c1 _ jj (nd_item items [k; jj]) Hc1)
      as (c2 & Hrun & Hc2); [lia|].
    exists c2. split; [done|]. eapply reshaped_ext; [exact Hc2|].
    intros j s _. cbn beta.
    destruct (decide (j = Z.to_nat jj)) as [->|Hne].
    + rewrite decide_False by lia. rewrite decide_True by lia.
      unfold feed. rewrite column_succ, fold_left_app by done. cbn.
      by rewrite Z2Nat.id by lia.
    + destruct (decide (Z.of_nat j < jj)).
      * by rewrite decide_True by lia.
      * by rewrite decide_False by lia.
  - exists c'. split; [done|]. eapply reshaped_ext; [exact Hc'|].
    intros j s Hs. cbn beta. rewrite decide_True; [done|].
    apply lookup_lt_Some in Hs. unfold ssize in Hsz. lia.
Qed.

(** All rows handed to one sketch: the inner loop of the column-major order. *)
Lemma column_pass c0 c items f n j :
  reshaped c0 c f → 0 ≤ n ≤ u32_max → 0 ≤ j < ssize (sketches_ c0) →
  ∃ c', for_u32 n (λ i, update_sketch j (nd_item items [i; j])) c = Ret tt c'
        ∧ reshaped c0 c'
            (λ j' s, if decide (j' = Z.to_nat j)
                     then fold_left sk_update (column items n j) (f j' s)
                     else f j' s).
Proof.
  intros Hc Hn Hj.
  destruct (for_u32_ret
    (λ ii c', reshaped c0 c'
       (λ j' s, if decide (j' = Z.to_nat j)
                then fold_left sk_update (column items ii j) (f j' s)
                else f j' s))
    n (λ i, update_sketch j (nd_item items [i; j])) c)
    as (c' & Hrun & Hc'); [done| | |by exists c'].
  - eapply reshaped_ext; [exact Hc|]. intros j' s _.
    by destruct (decide (j' = Z.to_nat j)).
  - intros ii c1 Hii Hc1.
    destruct (update_sketch_step c0 c1 _ j (nd_item items [ii; j]) Hc1)
      as (c2 & Hrun & Hc2); [lia|].
    exists c2. split; [done|]. eapply reshaped_ext; [exact Hc2|].
    intros j' s _. cbn beta. destruct (decide (j' = Z.to_nat j)); [|done].
    by rewrite column_succ, fold_left_app by lia.
Qed.

Lemma update_row_major c items n :
  0 ≤ d_ c → ssize (sketches_ c) = d_ c → 0 ≤ n ≤ u32_max →
  ∃ c', for_u32 n (λ i,
          for_lt (d_ c) (λ j, update_sketch j (nd_item items [i; j]))) c
        = Ret tt c'
        ∧ reshaped c c' (feed items n).
Proof.
  intros Hd Hsz Hn.
  destruct (for_u32_ret (λ k c', reshaped c c' (feed items k)) n
    (λ i, for_lt (d_ c) (λ j, update_sketch j (nd_item items [i; j]))) c)
    as (c' & Hrun & Hc'); [done| | |by exists c'].
  - apply reshaped_refl.
  - intros k c1 Hk Hc1. apply row_pass; [done|lia|done|done].
Qed.

Lemma update_column_major c items n :
  0 ≤ d_ c → ssize (sketches_ c) = d_ c → 0 ≤ n ≤ u32_max →
  ∃ c', for_lt (d_ c) (λ j,
          for_u32 n (λ i, update_sketch j (nd_item items [i; j]))) c
        = Ret tt c'
        ∧ reshaped c c' (feed items n).
Proof.
  intros Hd Hsz Hn.
  destruct (for_lt_ret
    (λ jj c', reshaped c c'
       (λ j s, if decide (Z.of_nat j < jj) then feed items n j s else s))
    (d_ c)
    (λ j, for_u32 n (λ i, update_sketch j (nd_item items [i; j]))) c)
    as (c' & Hrun & Hc'); [done| | |].
  - eapply reshaped_ext; [apply reshaped_refl|]. intros j s _.
    by rewrite decide_False by lia.
  - intros jj c1 Hjj Hc1.
    destruct (column_pass c c1 items _ n jj Hc1) as (c2 & Hrun & Hc2);
      [done|lia|].
    exists c2. split; [done|]. eapply reshaped_ext; [exact Hc2|].
    intros j s _. cbn beta. destruct (decide (j = Z.to_nat jj)) as [->|Hne].
    + rewrite decide_False by lia. rewrite decide_True by lia.
      unfold feed. by rewrite Z2Nat.id by lia.
    + destruct (decide (Z.of_nat j < jj)).
      * by rewrite decide_True by lia.
      * by rewrite decide_False by lia.
  - exists c'. split; [done|]. eapply reshaped_ext; [exact Hc'|].
    intros j s Hs. cbn beta. rewrite decide_True; [done|].
    apply lookup_lt_Some in Hs. unfold ssize in Hsz. lia.
Qed.

Lemma update_one_record c items :
  0 ≤ d_ c → ssize (sketches_ c) = d_ c →
  ∃ c', for_lt (d_ c) (λ i, update_sketch i (nd_item items [i])) c = Ret tt c'
        ∧ reshaped c c' (λ j s, sk_update s (nd_item items [Z.of_nat j])).
Proof.
  intros Hd Hsz.
  destruct (for_lt_ret
    (λ jj c', reshaped c c'
       (λ j s, if decide (Z.of_nat j < jj)
               then sk_update s (nd_item items [Z.of_nat j]) else s))
    (d_ c) (λ i, update_sketch i (nd_item items [i])) c)
    as (c' & Hrun & Hc'); [done| | |].
  - eapply reshaped_ext; [apply reshaped_refl|]. intros j s _.
    by rewrite decide_False by lia.
  - intros jj c1 Hjj Hc1.
    destruct (update_sketch_step c c1 _ jj (nd_item items [jj]) Hc1)
      as (c2 & Hrun & Hc2); [lia|].
    exists c2. split; [done|]. eapply reshaped_ext; [exact Hc2|].
    intros j s _. cbn beta. destruct (decide (j = Z.to_nat jj)) as [->|Hne].
    + rewrite decide_False by lia. rewrite decide_True by lia.
      by rewrite Z2Nat.id by lia.
    + destruct (decide (Z.of_nat j < jj)).
      * by rewrite decide_True by lia.
      * by rewrite decide_False by lia.
  - exists c'. split; [done|]. eapply reshaped_ext; [exact Hc'|].
    intros j s Hs. cbn beta. rewrite decide_True; [done|].
    apply lookup_lt_Some in Hs. unfold ssize in Hsz. lia.
Qed.

Lemma reshaped_ok c c' f : container_ok c → reshaped c c' f → container_ok c'.
Proof.
  intros [Hd Hsz] (Hk & Hd' & Hl & _). split; [by rewrite Hd'|].
  unfold ssize in *. by rewrite Hl, Hd'.
Qed.

Lemma reshaped_at c c' f j s :
  reshaped c c' f → vec_at (sketches_ c) j = Some s →
  vec_at (sketches_ c') j = Some (f (Z.to_nat j) s).
Proof.
  intros (_ & _ & _ & Hf) Hs. apply vec_at_Some in Hs as [Hj Hs].
  apply vec_at_Some. split; [done|]. by apply Hf.
Qed.

Lemma update_two_dimensional c items n :
  container_ok c → nd_shape items = [n; d_ c] → 0 ≤ n ≤ u32_max →
  ∃ c', update items c = Ret tt c' ∧ reshaped c c' (feed items n).
Proof.
  intros [Hd Hsz] Hshape Hn. unfold update. rewrite run_bind. run.
  rewrite Hshape. change (ssize [n; d_ c]) with 2.
  change (vec_at [n; d_ c] (2 - 1)) with (Some (d_ c)).
  change (vec_at [n; d_ c] 0) with (Some n). run.
  rewrite Z.eqb_refl. cbn [negb]. change (2 =? 1) with false.
  change (2 =? 2) with true. run.
  destruct (Ascii.eqb (check_order items) "F").
  - apply update_column_major; [lia|done|done].
  - apply update_row_major; [lia|done|done].
Qed.

Lemma update_one_dimensional c items :
  container_ok c → nd_shape items = [d_ c] →
  ∃ c', update items c = Ret tt c'
        ∧ reshaped c c' (λ j s, sk_update s (nd_item items [Z.of_nat j])).
Proof.
  intros [Hd Hsz] Hshape. unfold update. rewrite run_bind. run.
  rewrite Hshape. change (ssize [d_ c]) with 1.
  change (vec_at [d_ c] (1 - 1)) with (Some (d_ c)). run.
  rewrite Z.eqb_refl. cbn [negb]. change (1 =? 1) with true. run.
  apply update_one_record; [lia|done].
Qed.

(** ** Per-channel queries *)

Lemma insert_progress {A} (e z : list A) (i : nat) (r : A) :
  length z = length e → e !! i = Some r →
  <[i := r]> (take i e ++ drop i z) = take (S i) e ++ drop (S i) z.
Proof.
  intros Hlen Hr. pose proof (lookup_lt_Some _ _ _ Hr) as Hi.
  destruct (lookup_lt_is_Some_2 z i) as [r' Hr']; [lia|].
  rewrite (drop_S _ _ _ Hr'), (take_S_r _ _ _ Hr).
  rewrite insert_app_r_alt by (rewrite length_take; lia).
  rewrite length_take. replace (i - i `min` length e)%nat with 0%nat by lia.
  cbn. by rewrite <- app_assoc.
Qed.


(** An array over a destroyed local has no element to read. *)
Lemma view_of_local_at {V} (vals : list V) shape i :
  array1d_at (view_of_local vals shape) i = Undefined bad_reference.
Proof. reflexivity. Qed.

(** The loop of a per-channel query fills [vals] with the engine's answer
    for each sketch. *)
Lemma vals_filled {V} c (zero : V) (g : kll_sketch → V) :
  container_ok c →
  for_lt (d_ c)
    (λ i, s ← in_range (vec_at (sketches_ c) i); x ← mret (g s); set_val i x)
    (replicate (Z.to_nat (d_ c)) zero)
  = Ret tt (g <$> sketches_ c).
Proof.
  intros [Hd Hsz].
  set (e := g <$> sketches_ c). set (z := replicate (Z.to_nat (d_ c)) zero).
  assert (length e = Z.to_nat (d_ c)) as Hlen_e.
  { unfold e. rewrite length_fmap. unfold ssize in Hsz. lia. }
  assert (length z = length e) as Hlen.
  { unfold z. rewrite length_replicate. lia. }
  destruct (for_lt_ret
    (λ k vals, vals = take (Z.to_nat k) e ++ drop (Z.to_nat k) z)
    (d_ c)
    (λ i, s ← in_range (vec_at (sketches_ c) i); x ← mret (g s); set_val i x)
    z) as (vals & Hrun & Hvals); [lia|done| |].
  - intros k vals Hk ->.
    destruct (vec_at_in (sketches_ c) k) as (s & Hs & Hlk); [lia|].
    assert (e !! Z.to_nat k = Some (g s)) as He
      by (unfold e; by rewrite list_lookup_fmap, Hlk).
    eexists. split.
    { rewrite run_bind, Hs. run. unfold set_val. run.
      rewrite vec_set_in; [run; reflexivity|].
      unfold ssize. rewrite length_app, length_take, length_drop.
      pose proof (lookup_lt_Some _ _ _ He). lia. }
    replace (Z.to_nat (k + 1)) with (S (Z.to_nat k)) by lia.
    by apply insert_progress.
  - rewrite Hrun, Hvals. f_equal.
    rewrite take_ge, drop_ge; [by rewrite app_nil_r| |]; lia.
Qed.

(** The array returned is the view of that local. *)
Lemma per_sketch_pure {V} c (zero : V) (g : kll_sketch → V) :
  container_ok c →
  per_sketch c zero (λ s, mret (g s))
  = Value (view_of_local (g <$> sketches_ c) [d_ c]).
Proof.
  intros Hok. unfold per_sketch, eval_local. rewrite run_bind.
  rewrite (vals_filled c zero g Hok). reflexivity.
Qed.

Lemma get_n_each c :
  container_ok c →
  get_n c = Value (view_of_local (sk_get_n <$> sketches_ c) [d_ c]).
Proof. apply per_sketch_pure. Qed.

Lemma is_empty_each c :
  container_ok c →
  is_empty c = Value (view_of_local (sk_is_empty <$> sketches_ c) [d_ c]).
Proof. apply per_sketch_pure. Qed.

(** What the caller of [get_n] holds: an array of shape [(d)] of which no
    element can be read. *)
Lemma get_n_destroyed c :
  container_ok c →
  ∃ arr, get_n c = Value arr ∧ a1_shape arr = [d_ c]
         ∧ ∀ i, array1d_at arr i = Undefined bad_reference.
Proof. intros Hok. eexists. split; [by apply get_n_each|]. done. Qed.

Lemma get_n_fold_update (vs : list T) s :
  (∀ s' v, v ∈ vs → sk_get_n (sk_update s' v) = sk_get_n s' + 1) →
  sk_get_n (fold_left sk_update vs s) = sk_get_n s + ssize vs.
Proof.
  revert s. induction vs as [|v vs IH]; intros s Hcount.
  - unfold ssize. cbn. lia.
  - cbn [fold_left]. rewrite IH by (intros; apply Hcount; set_solver).
    rewrite Hcount by set_solver. unfold ssize. cbn [length]. lia.
Qed.

(** C6, on the code.  With a two-dimensional buffer of shape [(n, d)], in
    either traversal, [update] returns and each sketch [S[j]] has received
    the [n] values of column [j], one call per row in row order; when the
    engine counts each of these values, the count [S[j].get_n()] of every
    sketch has grown by [n].  With a one-dimensional buffer of length [d]
    each [S[i]] has received the single value [items[i]].  The row counter
    of the traversal is 32 bits wide, whence [n <= u32_max].  The
    container's own [get_n()] does not show the counts: before the update
    and after it, it returns an array of shape [(d)] over its local [vals],
    which is destroyed at the return, and no entry of that array can be
    read. *)
Theorem update_feeds_every_sketch c items :
  container_ok c →
  (∀ n, nd_shape items = [n; d_ c] → 0 ≤ n ≤ u32_max →
     ∃ c', update items c = Ret tt c'
           ∧ container_ok c' ∧ k_ c' = k_ c ∧ d_ c' = d_ c
           ∧ (∀ j s, vec_at (sketches_ c) j = Some s →
                vec_at (sketches_ c') j
                = Some (fold_left sk_update (column items n j) s)
                ∧ ssize (column items n j) = n)
           ∧ ((∀ s i j, 0 ≤ i < n → 0 ≤ j < d_ c →
                 sk_get_n (sk_update s (nd_item items [i; j])) = sk_get_n s + 1) →
              sk_get_n <$> sketches_ c'
              = (λ x, x + n) <$> (sk_get_n <$> sketches_ c))
           ∧ (∃ before, get_n c = Value before ∧ a1_shape before = [d_ c]
                ∧ ∀ j, array1d_at before j = Undefined bad_reference)
           ∧ (∃ after, get_n c' = Value after ∧ a1_shape after = [d_ c]
                ∧ ∀ j, array1d_at after j = Undefined bad_reference)) ∧
  (nd_shape items = [d_ c] →
     ∃ c', update items c = Ret tt c'
           ∧ container_ok c' ∧ k_ c' = k_ c ∧ d_ c' = d_ c
           ∧ ∀ i s, vec_at (sketches_ c) i = Some s →
               vec_at (sketches_ c') i = Some (sk_update s (nd_item items [i]))).
Proof.
  intros Hok. split.
  - intros n Hshape Hn.
    destruct (update_two_dimensional c items n Hok Hshape Hn) as (c' & Hrun & Hc').
    pose proof (reshaped_ok _ _ _ Hok Hc') as Hok'.
    exists c'. split; [done|]. split; [done|].
    split; [apply Hc'|]. split; [apply Hc'|].
    assert (d_ c' = d_ c) as Hdc by apply Hc'.
    split; [|split; [|split]].
    + intros j s Hs. split; [|apply length_column; lia].
      rewrite (reshaped_at _ _ _ _ _ Hc' Hs). unfold feed.
      apply vec_at_Some in Hs as [Hj _]. by rewrite Z2Nat.id.
    + intros Hcount.
      destruct Hc' as (_ & _ & Hlen & Hf). destruct Hok as [Hd Hsz].
      apply list_eq. intros j. rewrite !list_lookup_fmap.
      destruct (sketches_ c !! j) as [s|] eqn:Hs.
      * rewrite (Hf _ _ Hs). cbn. f_equal. unfold feed.
        pose proof (lookup_lt_Some _ _ _ Hs) as Hj. unfold ssize in Hsz.
        rewrite get_n_fold_update; [by rewrite length_column by lia|].
        intros s' v Hv. unfold column in Hv.
        apply list_elem_of_fmap in Hv as (i & -> & Hi).
        apply list_elem_of_lookup in Hi as [ii Hi].
        apply lookup_seqZ in Hi as [-> Hi]. apply Hcount; lia.
      * apply lookup_ge_None in Hs.
        by rewrite (proj2 (lookup_ge_None (sketches_ c') j)) by lia.
    + by apply get_n_destroyed.
    + rewrite <- Hdc. by apply get_n_destroyed.
  - intros Hshape.
    destruct (update_one_dimensional c items Hok Hshape) as (c' & Hrun & Hc').
    exists c'. split; [done|]. split; [by eapply reshaped_ok|].
    split; [apply Hc'|]. split; [apply Hc'|].
    intros i s Hs. rewrite (reshaped_at _ _ _ _ _ Hc' Hs).
    apply vec_at_Some in Hs as [Hi _]. by rewrite Z2Nat.id.
Qed.

(** ** merge *)

Lemma merge_pairs (h : store) this other a b :
  h !! this = Some a → h !! other = Some b → this ≠ other →
  container_ok a → container_ok b → d_ a = d_ b →
  ∃ a', merge this other h = Ret tt (<[this := a']> h)
        ∧ reshaped a a' (paired b).
Proof.
  intros Ha Hb Hne [Hda Hsa] [Hdb Hsb] Hd. unfold merge.
  rewrite (run_bind_ret _ _ _ _ _ (run_deref _ _ _ Ha)).
  rewrite (run_bind_ret _ _ _ _ _ (run_deref _ _ _ Hb)).
  unfold get_d. rewrite Hd, Z.eqb_refl. cbn [negb]. rewrite <- Hd.
  destruct (for_lt_ret
    (λ k (h' : store), ∃ a', h' = <[this := a']> h
       ∧ reshaped a a' (λ j s, if decide (Z.of_nat j < k) then paired b j s else s))
    (d_ a)
    (λ i, b ← deref other;
          o ← in_range (vec_at (sketches_ b) i);
          a ← deref this;
          s ← in_range (vec_at (sketches_ a) i);
          l ← in_range (vec_set (sketches_ a) i (sk_merge s o));
          assign this (with_sketches a l))
    h) as (h' & Hrun & a' & -> & Ha'); [lia| | |].
  - exists a. split; [by rewrite insert_id|].
    eapply reshaped_ext; [apply reshaped_refl|]. intros j s _.
    by rewrite decide_False by lia.
  - intros k h1 Hk (a1 & -> & Ha1).
    destruct (vec_at_in (sketches_ b) k) as (o & Ho & Hob); [lia|].
    destruct (vec_at_in (sketches_ a) k) as (s0 & _ & Hs0); [lia|].
    destruct Ha1 as (Hk1 & Hd1 & Hl1 & Hf1).
    pose proof (Hf1 _ _ Hs0) as Hs1. rewrite decide_False in Hs1 by lia.
    assert (vec_at (sketches_ a1) k = Some s0) as Hat
      by (apply vec_at_Some; split; [lia|done]).
    assert (vec_set (sketches_ a1) k (sk_merge s0 o)
            = Some (<[Z.to_nat k := sk_merge s0 o]> (sketches_ a1))) as Hset
      by (apply vec_set_in; unfold ssize in *; lia).
    eexists. split.
    { rewrite (run_bind_ret _ _ _ b (<[this:=a1]> h)).
      2:{ apply run_deref. by rewrite lookup_insert_ne. }
      rewrite (bind_in_range _ _ _ _ Ho).
      rewrite (run_bind_ret _ _ _ a1 (<[this:=a1]> h)).
      2:{ apply run_deref. by rewrite lookup_insert_eq. }
      rewrite (bind_in_range _ _ _ _ Hat).
      rewrite (bind_in_range _ _ _ _ Hset).
      unfold assign. run. rewrite insert_insert_eq. reflexivity. }
    eexists. split; [reflexivity|]. repeat split; cbn; try done.
    + by rewrite length_insert.
    + intros j s Hs. destruct (decide (j = Z.to_nat k)) as [->|Hj].
      * rewrite list_lookup_insert_eq by (unfold ssize in *; lia).
        rewrite decide_True by lia. unfold paired. rewrite Hob. congruence.
      * rewrite list_lookup_insert_ne by done. rewrite (Hf1 _ _ Hs).
        destruct (decide (Z.of_nat j < k)).
        -- by rewrite decide_True by lia.
        -- by rewrite decide_False by lia.
  - exists a'. split; [done|]. eapply reshaped_ext; [exact Ha'|].
    intros j s Hs. cbn beta. rewrite decide_True; [done|].
    apply lookup_lt_Some in Hs. unfold ssize in Hsa. lia.
Qed.

(** C4, on the code.  For two distinct containers [A] and [B] of equal
    [d] held in a store, [A.merge(B)] returns, [A] keeps [k] and [d] and
    its sketch [S[i]] is [S[i].merge(O[i])] for every [i] in [[0, d)], and
    [B] is in the store as it was.  When the engine's merge adds the
    counts, the count [S[i].get_n()] of every sketch of [A] is afterwards
    the sum of the two earlier counts.  [A.get_n()] and [B.get_n()] do not
    show these counts: each returns an array of shape [(d)] over its local
    [vals], which is destroyed at the return, and no entry of that array
    can be read. *)
Theorem merge_is_positional (h : store) this other a b :
  h !! this = Some a → h !! other = Some b → this ≠ other →
  container_ok a → container_ok b → d_ a = d_ b →
  ∃ a', merge this other h = Ret tt (<[this := a']> h)
        ∧ container_ok a' ∧ k_ a' = k_ a ∧ d_ a' = d_ a
        ∧ sketches_ a' = zip_with sk_merge (sketches_ a) (sketches_ b)
        ∧ (∀ i, 0 ≤ i < d_ a →
             ∃ s o, vec_at (sketches_ a) i = Some s
                    ∧ vec_at (sketches_ b) i = Some o
                    ∧ vec_at (sketches_ a') i = Some (sk_merge s o))
        ∧ (<[this := a']> h : store) !! other = Some b
        ∧ ((∀ s o, sk_get_n (sk_merge s o) = sk_get_n s + sk_get_n o) →
           sk_get_n <$> sketches_ a'
           = zip_with Z.add (sk_get_n <$> sketches_ a) (sk_get_n <$> sketches_ b))
        ∧ (∃ merged, get_n a' = Value merged ∧ a1_shape merged = [d_ a]
             ∧ ∀ i, array1d_at merged i = Undefined bad_reference)
        ∧ (∃ others, get_n b = Value others ∧ a1_shape others = [d_ b]
             ∧ ∀ i, array1d_at others i = Undefined bad_reference).
Proof.
  intros Ha Hb Hne Hoka Hokb Hd.
  destruct (merge_pairs h this other a b Ha Hb Hne Hoka Hokb Hd)
    as (a' & Hrun & Ha').
  pose proof (reshaped_ok _ _ _ Hoka Ha') as Hoka'.
  assert (sketches_ a' = zip_with sk_merge (sketches_ a) (sketches_ b)) as Hzip.
  { destruct Ha' as (_ & _ & Hl & Hf). destruct Hoka as [_ Hsa], Hokb as [_ Hsb].
    unfold ssize in *. apply list_eq. intros j. rewrite lookup_zip_with.
    destruct (sketches_ a !! j) as [s|] eqn:Hs; cbn.
    - rewrite (Hf _ _ Hs). unfold paired.
      destruct (lookup_lt_is_Some_2 (sketches_ b) j) as [o Ho];
        [apply lookup_lt_Some in Hs; lia|].
      by rewrite Ho.
    - apply lookup_ge_None. apply lookup_ge_None in Hs. lia. }
  exists a'. split; [done|]. split; [done|].
  assert (d_ a' = d_ a) as Hda by apply Ha'.
  split; [apply Ha'|]. split; [apply Ha'|]. split; [done|].
  split; [|split; [|split; [|split]]].
  - intros i Hi. destruct Hoka as [_ Hsa], Hokb as [_ Hsb].
    destruct (vec_at_in (sketches_ a) i) as (s & Hs & Hls); [lia|].
    destruct (vec_at_in (sketches_ b) i) as (o & Ho & Hlo); [lia|].
    exists s, o. split; [done|]. split; [done|].
    rewrite (reshaped_at _ _ _ _ _ Ha' Hs). unfold paired. by rewrite Hlo.
  - by rewrite lookup_insert_ne.
  - intros Hadd. rewrite Hzip. apply list_eq. intros j.
    rewrite list_lookup_fmap, !lookup_zip_with, !list_lookup_fmap.
    destruct (sketches_ a !! j) as [s|]; [|done].
    destruct (sketches_ b !! j) as [o|]; [|done].
    cbn. by rewrite Hadd.
  - rewrite <- Hda. by apply get_n_destroyed.
  - by apply get_n_destroyed.
Qed.

(** ** Bulk queries *)




Lemma picks_exist c inds :
  Forall (λ ix, 0 ≤ ix < ssize (sketches_ c)) inds → ∃ sel, picks c inds sel.
Proof.
  induction 1 as [|ix inds Hix _ [sel IH]]; [exists []; constructor|].
  destruct (vec_at_in (sketches_ c) ix Hix) as (s & Hs & _).
  exists (s :: sel). by constructor.
Qed.

Lemma run_selected {St} c inds sel (i : Z) s (st : St) :
  picks c inds sel → 0 ≤ i → sel !! Z.to_nat i = Some s →
  selected c inds i st = Ret s st.
Proof.
  intros Hp Hi Hs. unfold selected.
  destruct (Forall2_lookup_r _ _ _ _ _ Hp Hs) as (ix & Hix & Hat).
  assert (vec_at inds i = Some ix) as Hv by (by apply vec_at_Some).
  rewrite (bind_in_range _ _ _ _ Hv). by rewrite Hat.
Qed.




Lemma bulk_serialize c inds sel :
  picks c inds sel → ssize inds ≤ u32_max →
  for_u32 (ssize inds) (λ i,
    s ← selected c inds i;
    let serResult := sk_serialize s in
    push_back serResult) []
  = Ret tt (sk_serialize <$> sel).
Proof.
  intros Hp Hmax. pose proof (Forall2_length _ _ _ Hp) as Hlen.
  destruct (for_u32_ret
    (λ i (blobs : list (list byte)), blobs = sk_serialize <$> take (Z.to_nat i) sel)
    (ssize inds)
    (λ i, s ← selected c inds i;
          let serResult := sk_serialize s in push_back serResult)
    []) as (blobs & Hrun & Hblobs);
    [pose proof (ssize_nonneg inds); lia|done| |].
  - intros i blobs Hi ->. unfold ssize in Hi.
    destruct (lookup_lt_is_Some_2 sel (Z.to_nat i)) as [s Hs]; [lia|].
    eexists. split.
    { rewrite (run_bind_ret _ _ _ _ _ (run_selected _ _ _ _ _ _ Hp (proj1 Hi) Hs)).
      cbn zeta. apply run_push_back. }
    replace (Z.to_nat (i + 1)) with (S (Z.to_nat i)) by lia.
    by rewrite (take_S_r _ _ _ Hs), fmap_app.
  - rewrite Hrun, Hblobs. unfold ssize. rewrite Nat2Z.id.
    by rewrite take_ge by lia.
Qed.

End ContainerFacts.

(** ** What the resolver returns, for the bulk queries *)


Lemma scan_length d_ l acc inds :
  scan d_ l acc = Value inds → length inds = (length acc + length l)%nat.
Proof.
  revert acc. induction l as [|v l IH]; intros acc; cbn [scan].
  - intros [= <-]. cbn. lia.
  - destruct (to_u32 v <? d_); [|done]. intros H. apply IH in H.
    rewrite length_app in H. cbn in *. lia.
Qed.

Lemma get_indices_size d_ isk inds :
  is_u32 d_ → ssize isk ≤ u32_max →
  get_indices d_ isk = Value inds → ssize inds ≤ u32_max.
Proof.
  intros [Hd0 Hd] Hsz Hres. destruct (decide (length isk = 1%nat)) as [H1|H1].
  - destruct isk as [|v [|]]; try done. destruct (decide (v = -1)) as [->|Hv].
    + rewrite get_indices_all in Hres. injection Hres as <-.
      unfold ssize. rewrite length_seqZ. lia.
    + rewrite get_indices_one in Hres by done. by injection Hres as <-.
  - rewrite get_indices_many in Hres by done.
    apply scan_length in Hres. unfold ssize in *. cbn in Hres. lia.
Qed.


Section QueryFacts.
Context {E : KllEngine}.
Implicit Types c : vector_of_kll_sketches.






Lemma serialize_blobs c isk inds sel :
  get_indices (d_ c) isk = Value inds → picks c inds sel → ssize inds ≤ u32_max →
  serialize c isk = Value (sk_serialize <$> sel).
Proof.
  intros Hres Hp Hmax. unfold serialize, eval_local.
  rewrite (bind_call _ _ _ _ Hres). cbn zeta.
  by rewrite (run_bind_ret _ _ _ _ _ (bulk_serialize c inds sel Hp Hmax)).
Qed.


(** ** A single negative element other than the sentinel *)

Lemma selected_out_of_range {St} c ix (st : St) :
  vec_at (sketches_ c) ix = None → selected c [ix] 0 st = Fault out_of_bounds.
Proof.
  intros Hnone. unfold selected. change (vec_at [ix] 0) with (Some ix).
  rewrite (bind_in_range _ _ _ _ eq_refl). by rewrite Hnone.
Qed.

Lemma for_u32_once {St} (body : Z → M St unit) s :
  for_u32 1 body s = (body 0 ;; mret tt) s.
Proof. reflexivity. Qed.

Lemma for_lt_first {St} {A} (xs : list A) (body : Z → M St unit) s x :
  xs ≠ [] → body 0 s = Fault x → for_lt (ssize xs) body s = Fault x.
Proof.
  intros Hxs Hb. destruct xs as [|y xs]; [done|].
  unfold for_lt, ssize. rewrite Nat2Z.id. cbn [length].
  rewrite loop_S. by apply run_bind_fault.
Qed.

(** C10.  A length-one selector whose element [v] is negative and not -1
    is neither refused nor read as the sentinel: it resolves to the single
    index [v + 2^32].  For a width [d <= 2^31] that index is not below
    [d], the container has no sketch there, and [serialize], [get_pmf],
    [get_cdf], and [get_quantiles] and [get_ranks] with at least one query
    point, read [sketches_] out of its range. *)
Theorem negative_single_selector_reads_out_of_range c v :
  container_ok c → d_ c ≤ 2147483648 → is_int v → v < -1 →
  get_indices (d_ c) [v] = Value [v + 4294967296]
  ∧ d_ c ≤ v + 4294967296
  ∧ vec_at (sketches_ c) (v + 4294967296) = None
  ∧ serialize c [v] = Undefined out_of_bounds
  ∧ (∀ split_points,
       get_pmf c split_points [v] = Undefined out_of_bounds
       ∧ get_cdf c split_points [v] = Undefined out_of_bounds)
  ∧ (∀ ranks, ranks ≠ [] → get_quantiles c ranks [v] = Undefined out_of_bounds)
  ∧ (∀ values, values ≠ [] → get_ranks c values [v] = Undefined out_of_bounds).
Proof.
  intros [Hd Hsz] Hd31 Hint Hv. pose proof Hint as [Hlo Hhi].
  unfold int_min, int_max in Hlo, Hhi.
  assert (get_indices (d_ c) [v] = Value [v + 4294967296]) as Hres.
  { rewrite get_indices_one by lia. by rewrite to_u32_neg by (done || lia). }
  assert (vec_at (sketches_ c) (v + 4294967296) = None) as Hnone
    by (apply vec_at_out; lia).
  split; [done|]. split; [lia|]. split; [done|].
  split; [|split; [|split]].
  - unfold serialize, eval_local. rewrite (bind_call _ _ _ _ Hres). cbn zeta.
    change (ssize [v + 4294967296]) with 1. rewrite run_bind, for_u32_once.
    rewrite run_bind.
    by rewrite (run_bind_fault _ _ _ _ (selected_out_of_range c _ _ Hnone)).
  - intros split_points. split.
    + unfold get_pmf, eval_local. rewrite (bind_call _ _ _ _ Hres). cbn zeta.
      rewrite bind_put. change (ssize [v + 4294967296]) with 1.
      rewrite run_bind, for_u32_once, run_bind.
      by rewrite (run_bind_fault _ _ _ _ (selected_out_of_range c _ _ Hnone)).
    + unfold get_cdf, eval_local. rewrite (bind_call _ _ _ _ Hres). cbn zeta.
      rewrite bind_put. change (ssize [v + 4294967296]) with 1.
      rewrite run_bind, for_u32_once, run_bind.
      by rewrite (run_bind_fault _ _ _ _ (selected_out_of_range c _ _ Hnone)).
  - intros ranks Hne. unfold get_quantiles, eval_local.
    rewrite (bind_call _ _ _ _ Hres). cbn zeta.
    rewrite bind_put. change (ssize [v + 4294967296]) with 1.
    rewrite run_bind, for_u32_once, run_bind.
    rewrite (for_lt_first ranks _ _ out_of_bounds Hne); [done|].
    by rewrite (run_bind_fault _ _ _ _ (selected_out_of_range c _ _ Hnone)).
  - intros values Hne. unfold get_ranks, eval_local.
    rewrite (bind_call _ _ _ _ Hres). cbn zeta.
    rewrite bind_put. change (ssize [v + 4294967296]) with 1.
    rewrite run_bind, for_u32_once, run_bind.
    rewrite (for_lt_first values _ _ out_of_bounds Hne); [done|].
    by rewrite (run_bind_fault _ _ _ _ (selected_out_of_range c _ _ Hnone)).
Qed.

End QueryFacts.

(** ** The two traversal orders of update *)

Lemma fold_left_snoc {A} (vs acc : list A) :
  fold_left (λ s v, s ++ [v]) vs acc = acc ++ vs.
Proof.
  revert acc. induction vs as [|v vs IH]; intros acc; cbn.
  - by rewrite app_nil_r.
  - rewrite IH. by rewrite <- app_assoc.
Qed.

Lemma update_any_order {E : KllEngine} (c : vector_of_kll_sketches)
    (items : ndarray T) n tag :
  container_ok c → nd_shape items = [n; d_ c] → 0 ≤ n ≤ u32_max →
  ∃ c', update (with_contig tag items) c = Ret tt c'
        ∧ reshaped c c' (feed items n).
Proof.
  intros Hok Hshape Hn.
  apply (update_two_dimensional c (with_contig tag items) n Hok Hshape Hn).
Qed.

Lemma deliveries_are_columns {E : KllEngine} (items : ndarray T) n d tag :
  1 ≤ d ≤ u32_max → nd_shape items = [n; d] → 0 ≤ n ≤ u32_max →
  deliveries tag items d = Value ((λ j, column items n j) <$> seqZ 0 d).
Proof.
  intros Hd Hshape Hn. unfold deliveries.
  assert (container_ok (no_deliveries d)) as Hok.
  { split; [done|]. cbn. unfold ssize. rewrite length_replicate. lia. }
  destruct (update_any_order (E := recorder E) (no_deliveries d) items n tag
              Hok Hshape Hn) as (c' & Hrun & Hc').
  match goal with
  | |- match ?u with _ => _ end = _ =>
      replace u with (Ret tt c') by (symmetry; exact Hrun)
  end.
  f_equal. destruct Hc' as (_ & _ & Hlen & Hf).
  cbn in Hlen, Hf. rewrite length_replicate in Hlen.
  assert (length (sketches_ c') = Z.to_nat d) as Hl by exact Hlen.
  apply list_eq. intros j. rewrite list_lookup_fmap.
  destruct (decide (j < Z.to_nat d)%nat) as [Hj|Hj].
  - etrans; [apply (Hf j []); by apply lookup_replicate_2|].
    rewrite (proj2 (lookup_seqZ 0 d j (Z.of_nat j))) by lia.
    cbn [fmap option_fmap option_map]. f_equal. unfold feed.
    exact (fold_left_snoc (column items n (Z.of_nat j)) []).
  - etrans; [apply lookup_ge_None; change (length (sketches_ c') ≤ j)%nat; lia|].
    rewrite (proj2 (lookup_ge_None (seqZ 0 d) j)); [done|].
    rewrite length_seqZ. lia.
Qed.

(** C7.  For a two-dimensional buffer of shape [(n, d)] with [n] within
    the 32-bit row counter, the column-major traversal and the row-major
    one (taken for C-contiguous arrays and for arrays of unknown layout)
    leave the same container; and the values each sketch [S[j]] is handed
    are, in both, the column [j] of the buffer: the same multiset. *)
Theorem traversal_orders_deliver_alike {E : KllEngine}
    (c : vector_of_kll_sketches) (items : ndarray T) (n : Z) :
  container_ok c → nd_shape items = [n; d_ c] → 0 ≤ n ≤ u32_max →
  (∃ c', update (with_contig f_contig items) c = Ret tt c'
         ∧ update (with_contig c_contig items) c = Ret tt c'
         ∧ update (with_contig any_contig items) c = Ret tt c') ∧
  (∃ by_column by_row,
     deliveries f_contig items (d_ c) = Value by_column
     ∧ deliveries c_contig items (d_ c) = Value by_row
     ∧ deliveries any_contig items (d_ c) = Value by_row
     ∧ ∀ j, 0 ≤ j < d_ c →
         ∃ a b, vec_at by_column j = Some a ∧ vec_at by_row j = Some b
                ∧ a ≡ₚ b ∧ a = column items n j).
Proof.
  intros Hok Hshape Hn. split.
  - destruct (update_any_order c items n f_contig Hok Hshape Hn) as (c1 & H1 & R1).
    destruct (update_any_order c items n c_contig Hok Hshape Hn) as (c2 & H2 & R2).
    destruct (update_any_order c items n any_contig Hok Hshape Hn) as (c3 & H3 & R3).
    exists c1. split; [done|].
    by rewrite H2, H3, (reshaped_eq _ _ _ _ R1 R2), (reshaped_eq _ _ _ _ R2 R3).
  - destruct Hok as [Hd _].
    exists ((λ j, column items n j) <$> seqZ 0 (d_ c)),
           ((λ j, column items n j) <$> seqZ 0 (d_ c)).
    rewrite !(deliveries_are_columns items n (d_ c)) by done.
    repeat split. intros j Hj.
    assert (vec_at ((λ j, column items n j) <$> seqZ 0 (d_ c)) j
            = Some (column items n j)) as Hat.
    { apply vec_at_Some. split; [lia|]. rewrite list_lookup_fmap.
      rewrite (proj2 (lookup_seqZ 0 (d_ c) (Z.to_nat j) j)) by lia. done. }
    by exists (column items n j), (column items n j).
Qed.

(** ** The container on the exact engine *)

Lemma fed_two_rows : Exact.fed 200 2 [two_rows] = Value after_two_rows.
Proof. reflexivity. Qed.

(** The end-to-end scenarios 1, 2 and 4 of the specification, with the
    counts and extremes read from the sketches the container holds; the
    per-channel queries return arrays over destroyed storage. *)
Example one_record :
  ∃ c : vector_of_kll_sketches (E := Exact.engine), Exact.fed 200 3 [Exact.array1 [1; 2; 3]%Q] = Value c
       ∧ @sk_get_n Exact.engine <$> sketches_ c = [1; 1; 1]
       ∧ @sk_is_empty Exact.engine <$> sketches_ c = [false; false; false]
       ∧ @sk_get_min_item Exact.engine <$> sketches_ c = [inr 1%Q; inr 2%Q; inr 3%Q]
       ∧ @sk_get_max_item Exact.engine <$> sketches_ c = [inr 1%Q; inr 2%Q; inr 3%Q]
       ∧ get_n c = Value {| a1_shape := [3]; a1_data := destroyed |}
       ∧ is_empty c = Value {| a1_shape := [3]; a1_data := destroyed |}
       ∧ get_min_values c = Value {| a1_shape := [3]; a1_data := destroyed |}
       ∧ get_max_values c = Value {| a1_shape := [3]; a1_data := destroyed |}.
Proof. eexists. split; [reflexivity|]. by repeat split. Qed.

Example three_records :
  ∃ c : vector_of_kll_sketches (E := Exact.engine), Exact.fed 200 2 [Exact.array2 c_contig [[1; 10]; [2; 20]; [3; 30]]%Q]
       = Value c
       ∧ @sk_get_n Exact.engine <$> sketches_ c = [3; 3]
       ∧ @sk_get_min_item Exact.engine <$> sketches_ c = [inr 1%Q; inr 10%Q]
       ∧ @sk_get_max_item Exact.engine <$> sketches_ c = [inr 3%Q; inr 30%Q]
       ∧ get_quantiles c [0; 1]%Q [-1] = Value [[1; 3]; [10; 30]]%Q.
Proof. eexists. split; [reflexivity|]. by repeat split. Qed.

Example merge_of_one_record_each :
  ∃ a b (h : gmap nat (vector_of_kll_sketches (E := Exact.engine))) a',
    Exact.fed 200 2 [Exact.array2 c_contig [[1; 10]]%Q] = Value a
    ∧ Exact.fed 200 2 [Exact.array2 c_contig [[2; 20]]%Q] = Value b
    ∧ merge 0 1 (<[0%nat := a]> (<[1%nat := b]> ∅)) = Ret tt h
    ∧ h !! 0%nat = Some a' ∧ h !! 1%nat = Some b
    ∧ @sk_get_n Exact.engine <$> sketches_ a' = [2; 2] ∧ @sk_get_n Exact.engine <$> sketches_ b = [1; 1].
Proof.
  eexists _, _, _, _. split; [reflexivity|]. split; [reflexivity|].
  split; [reflexivity|]. by repeat split.
Qed.

(** The exact engine counts what it is given. *)
Lemma exact_merge_adds (s o : Exact.exact_sketch) :
  Exact.ex_get_n (Exact.ex_merge s o) = Exact.ex_get_n s + Exact.ex_get_n o.
Proof.
  unfold Exact.ex_get_n, Exact.ex_merge, ssize. cbn [Exact.ex_items].
  rewrite length_app. lia.
Qed.

Lemma exact_update_counts (s : Exact.exact_sketch) (v : Q) :
  Exact.ex_get_n (Exact.ex_update s v) = Exact.ex_get_n s + 1.
Proof.
  unfold Exact.ex_get_n, Exact.ex_update, ssize. cbn [Exact.ex_items].
  rewrite length_app. cbn [length]. lia.
Qed.

Lemma after_two_rows_ok : container_ok after_two_rows.
Proof.
  unfold container_ok, after_two_rows, u32_max, ssize.
  cbn [d_ sketches_ length]. lia.
Defined.

(** C1, on the code.  On the container of [d = 2] channels updated with
    [[[1, 2], [3, 4]]], [collapse([-1])] returns the sketch of channel 0
    alone, with count [get_n() = 2], minimum 1 and maximum 3: the loop runs over
    the positions [0 .. |isk| - 1] of the selector and merges
    [sketches_[idx]] for these positions, whatever the selector holds. *)
Theorem collapse_of_all_keeps_first_sketch_only :
  Exact.fed 200 2 [two_rows] = Value after_two_rows
  ∧ @sk_get_n Exact.engine <$> sketches_ after_two_rows = [2; 2]
  ∧ ∃ r, collapse after_two_rows [-1] = Value r
         ∧ r = {| Exact.ex_k := 200; Exact.ex_items := [1; 3]%Q |}
         ∧ sk_get_n r = 2
         ∧ sk_get_min_item r = inr 1%Q
         ∧ sk_get_max_item r = inr 3%Q.
Proof.
  split; [exact fed_two_rows|]. split; [reflexivity|].
  eexists. split; [vm_compute; reflexivity|]. by repeat split.
Qed.


(** ** The theorems at the container above *)

Lemma rejections_leave_state_witness :
  (∃ msg, update (E := Exact.engine) (Exact.array1 [1; 2; 3]%Q) after_two_rows
          = Throw (invalid_argument msg) after_two_rows)
  ∧ (∃ msg, deserialize (E := Exact.engine) 0 [] 2 after_two_rows
            = Throw (invalid_argument msg) after_two_rows).
Proof.
  destruct (rejections_leave_state (E := Exact.engine)) as (_ & H2 & _ & H4 & _).
  split.
  - apply (H2 after_two_rows (Exact.array1 [1; 2; 3]%Q) 3); [reflexivity|].
    cbn. lia.
  - apply H4. cbn. lia.
Defined.

Lemma merge_is_positional_witness :
  ∃ a', merge 0 1 two_containers = Ret tt (<[0%nat := a']> two_containers)
        ∧ sketches_ a'
          = zip_with sk_merge (sketches_ after_two_rows) (sketches_ after_one_row)
        ∧ (<[0%nat := a']> two_containers : gmap nat _) !! 1%nat = Some after_one_row
        ∧ sk_get_n <$> sketches_ a' = [3; 3]
        ∧ ∃ merged, get_n a' = Value merged
                    ∧ array1d_at merged 0 = Undefined bad_reference.
Proof.
  destruct (merge_is_positional two_containers 0 1 after_two_rows after_one_row)
    as (a' & Hrun & _ & _ & _ & Hzip & _ & Hother & Hn & (merged & Hm & _ & Hat) & _).
  - reflexivity.
  - reflexivity.
  - lia.
  - exact after_two_rows_ok.
  - unfold container_ok, after_one_row, u32_max, ssize.
    cbn [d_ sketches_ length]. lia.
  - reflexivity.
  - exists a'. split; [done|]. split; [done|]. split; [done|]. split.
    + rewrite Hn; [reflexivity|exact exact_merge_adds].
    + exists merged. split; [done|apply Hat].
Defined.


Lemma update_feeds_every_sketch_witness :
  ∃ c', update (E := Exact.engine) two_rows after_two_rows = Ret tt c'
        ∧ container_ok c'
        ∧ sk_get_n <$> sketches_ c' = [4; 4]
        ∧ ∃ after, get_n c' = Value after
                   ∧ array1d_at after 0 = Undefined bad_reference.
Proof.
  destruct (proj1 (update_feeds_every_sketch (E := Exact.engine) after_two_rows two_rows
                     after_two_rows_ok) 2)
    as (c' & Hrun & Hok & _ & _ & _ & Hn & _ & (after & Ha & _ & Hat)).
  - reflexivity.
  - unfold u32_max. lia.
  - exists c'. split; [done|]. split; [done|]. split.
    + rewrite Hn; [reflexivity|]. intros s i j _ _. apply exact_update_counts.
    + exists after. split; [done|apply Hat].
Defined.

Lemma traversal_orders_deliver_alike_witness :
  ∃ c', update (E := Exact.engine) (with_contig f_contig two_rows) after_two_rows = Ret tt c'
        ∧ update (E := Exact.engine) (with_contig c_contig two_rows) after_two_rows = Ret tt c'.
Proof.
  destruct (proj1 (traversal_orders_deliver_alike (E := Exact.engine) after_two_rows two_rows 2
                     after_two_rows_ok eq_refl ltac:(unfold u32_max; lia)))
    as (c' & HF & HC & _).
  by exists c'.
Defined.

Lemma deserialize_replaces_one_witness :
  ∃ c', deserialize (E := Exact.engine) 32 (Exact.ex_serialize seven) 1 after_two_rows = Ret tt c'
        ∧ vec_at (sketches_ c') 1 = Some seven
        ∧ vec_at (sketches_ c') 0 = vec_at (sketches_ after_two_rows) 0.
Proof.
  destruct (proj1 (deserialize_replaces_one (E := Exact.engine) after_two_rows 32
                     (Exact.ex_serialize seven) 1 after_two_rows_ok
                     ltac:(cbn; lia)) seven)
    as (c' & Hrun & _ & _ & _ & Hat & Hother).
  - reflexivity.
  - exists c'. split; [done|]. split; [done|]. apply Hother. lia.
Defined.

Lemma to_string_separates_by_line_feed_witness :
  to_string after_two_rows false false
  = Value (String.concat (nl +:+ nl)
             [ ("### KLL sketch summary:" +:+ nl
                +:+ "   K              : 200" +:+ nl
                +:+ "   N              : 2" +:+ nl
                +:+ "### End sketch summary");
               ("### KLL sketch summary:" +:+ nl
                +:+ "   K              : 200" +:+ nl
                +:+ "   N              : 2" +:+ nl
                +:+ "### End sketch summary") ]
           +:+ nl).
Proof.
  apply (proj2 (to_string_separates_by_line_feed after_two_rows false false
                  after_two_rows_ok)).
  reflexivity.
Defined.

Lemma negative_single_selector_reads_out_of_range_witness :
  get_indices (d_ after_two_rows) [-2] = Value [-2 + 4294967296]
  ∧ serialize after_two_rows [-2] = Undefined out_of_bounds.
Proof.
  destruct (negative_single_selector_reads_out_of_range after_two_rows (-2))
    as (Hres & _ & _ & Hser & _).
  - exact after_two_rows_ok.
  - cbn. lia.
  - unfold is_int, int_min, int_max. lia.
  - lia.
  - by split.
Defined.

(** * Further properties of the code *)

(** ** Loops *)

Lemma loop_app {St} n1 n2 i (body : Z → M St unit) s :
  loop (n1 + n2) i body s
  = (loop n1 i body ;; loop n2 (i + Z.of_nat n1) body) s.
Proof.
  revert i s. induction n1 as [|n1 IH]; intros i s.
  - cbn [Nat.add loop]. rewrite run_bind. cbn.
    by replace (i + Z.of_nat 0) with i by lia.
  - cbn [Nat.add]. rewrite loop_S, !run_bind, loop_S, run_bind.
    destruct (body i s) as [[] s1|e s1|x]; [|done|done].
    rewrite IH, run_bind.
    by replace (i + 1 + Z.of_nat n1) with (i + Z.of_nat (S n1)) by lia.
Qed.

(** A loop whose steps all return keeps what every step keeps. *)
Lemma loop_keeps {St} (P : St → Prop) n i (body : Z → M St unit) s :
  P s → (∀ k s, P s → ∃ s', body k s = Ret tt s' ∧ P s') →
  ∃ s', loop n i body s = Ret tt s' ∧ P s'.
Proof.
  intros Hs Hstep.
  destruct (loop_ret (λ _, P) n i body s Hs) as (s' & Hrun & Hs'); [|by exists s'].
  intros k s1 _. apply Hstep.
Qed.

Section MoreFacts.
Context {E : KllEngine}.
Implicit Types c : vector_of_kll_sketches.
Local Abbreviation store := (gmap nat vector_of_kll_sketches).

(** ** Construction *)

(** X1.  With [1 <= d] and a [k] the engine accepts, the constructor
    returns a container that reports [k] and [d] and holds [d] sketches,
    each the engine's fresh sketch for [k]: every channel in [[0, d)]
    reads that sketch. *)
Theorem construction_builds_fresh_sketches k d s0 :
  1 ≤ d ≤ u32_max → sk_new k = inr s0 →
  ∃ c, new_vector_of_kll_sketches k d = Value c
       ∧ container_ok c ∧ get_k c = k ∧ get_d c = d
       ∧ sketches_ c = replicate (Z.to_nat d) s0
       ∧ ∀ i, 0 ≤ i < d → vec_at (sketches_ c) i = Some s0.
Proof.
  intros Hd Hnew. destruct (new_builds k d s0 Hd Hnew) as [Hrun Hok].
  eexists. split; [exact Hrun|]. split; [done|].
  split; [done|]. split; [done|]. split; [done|].
  intros i Hi. cbn [sketches_]. apply vec_at_Some. split; [lia|].
  apply lookup_replicate_2. lia.
Qed.

(** X2.  The width is checked before the engine sees [k]: with [d < 1]
    the constructor throws the invalid-argument about [D] whatever [k]
    is; with [1 <= d] and a [k] the engine refuses, it throws the
    engine's exception. *)
Theorem construction_checks_width_first k d :
  (d < 1 →
   new_vector_of_kll_sketches k d
   = Raised (invalid_argument ("D must be >= 1: " +:+ to_string_Z d))) ∧
  (∀ e, 1 ≤ d → sk_new k = inl e → new_vector_of_kll_sketches k d = Raised e).
Proof.
  split.
  - intros Hd. unfold new_vector_of_kll_sketches, eval_local.
    by destruct (Z.ltb_spec d 1); [|lia].
  - intros e Hd Hnew. unfold new_vector_of_kll_sketches, eval_local.
    destruct (Z.ltb_spec d 1); [lia|]. rewrite run_bind. unfold for_lt.
    replace (Z.to_nat d) with (S (Z.to_nat (d - 1))) by lia.
    rewrite loop_S, !run_bind, Hnew. reflexivity.
Qed.

(** ** What update does on every input *)

Lemma same_frame_refl c : same_frame c c.
Proof. by repeat split. Qed.

Lemma same_frame_trans c1 c2 c3 :
  same_frame c1 c2 → same_frame c2 c3 → same_frame c1 c3.
Proof. intros (? & ? & ?) (? & ? & ?). repeat split; congruence. Qed.

Lemma same_frame_ok c c' : container_ok c → same_frame c c' → container_ok c'.
Proof. intros [Hd Hsz] (Hk & Hd' & Hl). split; congruence. Qed.

Lemma update_sketch_keeps c0 c j v :
  same_frame c0 c → 0 ≤ j < ssize (sketches_ c0) →
  ∃ c', update_sketch j v c = Ret tt c' ∧ same_frame c0 c'.
Proof.
  intros Hc Hj. pose proof Hc as (Hk & Hd & Hl).
  destruct (update_sketch_step c c (λ _ s, s) j v (reshaped_refl c))
    as (c' & Hrun & Hk' & Hd' & Hl' & _); [lia|].
  exists c'. split; [done|]. repeat split; try congruence.
  unfold ssize in *. lia.
Qed.

Lemma channel_loop_keeps c0 c (vals : Z → T) :
  same_frame c0 c → 0 ≤ d_ c0 → ssize (sketches_ c0) = d_ c0 →
  ∃ c', for_lt (d_ c0) (λ j, update_sketch j (vals j)) c = Ret tt c'
        ∧ same_frame c0 c'.
Proof.
  intros Hc Hd Hsz.
  apply (for_lt_ret (λ _ c', same_frame c0 c')); [done|done|].
  intros j c1 Hj Hc1. apply update_sketch_keeps; [done|lia].
Qed.

Lemma row_loop_keeps c0 c (vals : Z → T) j n i :
  same_frame c0 c → 0 ≤ j < ssize (sketches_ c0) →
  ∃ c', loop n i (λ i, update_sketch j (vals i)) c = Ret tt c'
        ∧ same_frame c0 c'.
Proof.
  intros Hc Hj. apply (loop_keeps (same_frame c0)); [done|].
  intros k c1 Hc1. by apply update_sketch_keeps.
Qed.

(** A row counter that would have to pass [u32_max]: after the full
    pass, no exit. *)
Lemma for_u32_no_exit {St} bound (body : Z → M St unit) s s' :
  u32_max < bound → for_lt (u32_max + 1) body s = Ret tt s' →
  for_u32 bound body s = Fault no_exit.
Proof.
  intros Hb Hpass. unfold for_u32. destruct (Z.leb_spec bound u32_max); [lia|].
  by rewrite (run_bind_ret _ _ _ _ _ Hpass).
Qed.

Lemma update_column_major_outcome c items rows :
  container_ok c →
  match for_lt (d_ c) (λ j,
          for_u32 rows (λ i, update_sketch j (nd_item items [i; j]))) c with
  | Ret _ c' => same_frame c c' ∧ rows ≤ u32_max
  | Throw _ _ => False
  | Fault f => f = no_exit ∧ u32_max < rows
  end.
Proof.
  intros [Hd Hsz]. destruct (Z.le_gt_cases rows u32_max) as [Hr|Hr].
  - destruct (for_lt_ret (λ _ c', same_frame c c') (d_ c)
      (λ j, for_u32 rows (λ i, update_sketch j (nd_item items [i; j]))) c)
      as (c' & Hrun & Hc'); [lia|apply same_frame_refl| |by rewrite Hrun].
    intros j c1 Hj Hc1. unfold for_u32.
    destruct (Z.leb_spec rows u32_max); [|lia].
    apply (row_loop_keeps c c1 (λ i, nd_item items [i; j])); [done|lia].
  - unfold for_lt at 1.
    replace (Z.to_nat (d_ c)) with (S (Z.to_nat (d_ c - 1))) by lia.
    rewrite loop_S, run_bind.
    destruct (row_loop_keeps c c (λ i, nd_item items [i; 0]) 0
                (Z.to_nat (u32_max + 1)) 0 (same_frame_refl c))
      as (c1 & Hpass & _); [lia|].
    rewrite (for_u32_no_exit rows _ c c1); [split; [done|lia]|lia|exact Hpass].
Qed.

Lemma update_row_major_outcome c items rows :
  container_ok c →
  match for_u32 rows (λ i,
          for_lt (d_ c) (λ j, update_sketch j (nd_item items [i; j]))) c with
  | Ret _ c' => same_frame c c' ∧ rows ≤ u32_max
  | Throw _ _ => False
  | Fault f => f = no_exit ∧ u32_max < rows
  end.
Proof.
  intros [Hd Hsz].
  assert (∀ n, ∃ c', loop n 0 (λ i,
            for_lt (d_ c) (λ j, update_sketch j (nd_item items [i; j]))) c
            = Ret tt c' ∧ same_frame c c') as Hpass.
  { intros n. apply (loop_keeps (same_frame c)); [apply same_frame_refl|].
    intros i c1 Hc1.
    apply (channel_loop_keeps c c1 (λ j, nd_item items [i; j])); [done|lia|done]. }
  destruct (Z.le_gt_cases rows u32_max) as [Hr|Hr].
  - unfold for_u32, for_lt at 1. destruct (Z.leb_spec rows u32_max); [|lia].
    destruct (Hpass (Z.to_nat rows)) as (c' & Hrun & Hc'). by rewrite Hrun.
  - destruct (Hpass (Z.to_nat (u32_max + 1))) as (c1 & Hrun & _).
    rewrite (for_u32_no_exit rows _ c c1); [split; [done|lia]|lia|exact Hrun].
Qed.

(** Every outcome of [update] on a well-formed container. *)
Lemma update_outcome c items :
  container_ok c →
  match update items c with
  | Ret _ c' =>
      same_frame c c' ∧ (ssize (nd_shape items) = 1 ∨ ssize (nd_shape items) = 2)
  | Throw e c' => c' = c ∧ ∃ msg, e = invalid_argument msg
  | Fault f =>
      (f = out_of_bounds ∧ nd_shape items = [])
      ∨ (f = no_exit ∧ ∃ rows, nd_shape items = [rows; d_ c] ∧ u32_max < rows)
  end.
Proof.
  intros Hok. pose proof Hok as [Hd Hsz]. unfold update. rewrite bind_get.
  cbn zeta. destruct (nd_shape items) as [|x0 sh] eqn:Hshape.
  { left. by split. }
  destruct (vec_at_in (x0 :: sh) (ssize (x0 :: sh) - 1)) as (last & Hlast & _).
  { unfold ssize. cbn [length]. lia. }
  rewrite (bind_in_range _ _ _ _ Hlast).
  destruct (Z.eqb_spec last (d_ c)) as [->|Hne]; cbn [negb].
  2:{ split; [done|]. by eexists. }
  destruct (Z.eqb_spec (ssize (x0 :: sh)) 1) as [H1|H1].
  { destruct (channel_loop_keeps c c (λ i, nd_item items [i])
                (same_frame_refl c)) as (c' & Hrun & Hc'); [lia|done|].
    rewrite Hrun. split; [done|by left]. }
  destruct (Z.eqb_spec (ssize (x0 :: sh)) 2) as [H2|H2].
  2:{ split; [done|]. by eexists. }
  destruct sh as [|x1 [|x2 sh]]; try (unfold ssize in H2; cbn in H2; lia).
  change (vec_at [x0; x1] (ssize [x0; x1] - 1)) with (Some x1) in Hlast.
  injection Hlast as ->.
  change (vec_at [x0; d_ c] 0) with (Some x0).
  rewrite (bind_in_range _ _ _ _ eq_refl).
  destruct (Ascii.eqb (check_order items) "F").
  - pose proof (update_column_major_outcome c items x0 Hok) as Hout.
    destruct (for_lt (d_ c) _ c) as [[] c'|e c'|f]; [|done|].
    + split; [apply Hout|by right].
    + right. split; [apply Hout|]. exists x0. split; [done|apply Hout].
  - pose proof (update_row_major_outcome c items x0 Hok) as Hout.
    destruct (for_u32 x0 _ c) as [[] c'|e c'|f]; [|done|].
    + split; [apply Hout|by right].
    + right. split; [apply Hout|]. exists x0. split; [done|apply Hout].
Qed.

(** X4.  A zero-dimensional array makes [update] read [shape(ndim - 1)]
    with [ndim - 1] wrapped around: outside the shape, whatever the
    container. *)
Theorem update_of_zero_dimensional_array c items :
  nd_shape items = [] → update items c = Fault out_of_bounds.
Proof. intros Hshape. unfold update. rewrite bind_get. by rewrite Hshape. Qed.

(** X5.  With more than [u32_max] rows the [uint32_t] row counter can
    never reach [items.shape(0)]: in both traversals [update] does not
    return. *)
Theorem update_with_too_many_rows c items rows :
  container_ok c → nd_shape items = [rows; d_ c] → u32_max < rows →
  update items c = Fault no_exit.
Proof.
  intros Hok Hshape Hrows. pose proof (update_outcome c items Hok) as Hout.
  pose proof (update_column_major_outcome c items rows Hok) as HF.
  pose proof (update_row_major_outcome c items rows Hok) as HC.
  unfold update in *. rewrite bind_get in *. cbn zeta in *.
  rewrite Hshape in *. change (ssize [rows; d_ c]) with 2 in *.
  change (vec_at [rows; d_ c] (2 - 1)) with (Some (d_ c)) in *.
  rewrite (bind_in_range _ _ _ _ eq_refl) in *. rewrite Z.eqb_refl in *.
  cbn [negb] in *. change (2 =? 1) with false in *.
  change (2 =? 2) with true in *. cbn match in *.
  change (vec_at [rows; d_ c] 0) with (Some rows) in *.
  rewrite (bind_in_range _ _ _ _ eq_refl) in *.
  destruct (Ascii.eqb (check_order items) "F").
  - destruct (for_lt (d_ c) _ c) as [[] c'|e c'|f]; [|done|].
    + destruct HF as [_ HF]. lia.
    + by destruct HF as [-> _].
  - destruct (for_u32 rows _ c) as [[] c'|e c'|f]; [|done|].
    + destruct HC as [_ HC]. lia.
    + by destruct HC as [-> _].
Qed.

(** ** merge of a container into itself *)

Lemma merge_self (h : store) this a :
  h !! this = Some a → container_ok a →
  ∃ a', merge this this h = Ret tt (<[this := a']> h)
        ∧ reshaped a a' (λ _ s, sk_merge s s).
Proof.
  intros Ha [Hda Hsa]. unfold merge.
  rewrite (run_bind_ret _ _ _ _ _ (run_deref _ _ _ Ha)).
  rewrite (run_bind_ret _ _ _ _ _ (run_deref _ _ _ Ha)).
  unfold get_d. rewrite Z.eqb_refl. cbn [negb].
  destruct (for_lt_ret
    (λ k (h' : store), ∃ a', h' = <[this := a']> h
       ∧ reshaped a a' (λ j s, if decide (Z.of_nat j < k) then sk_merge s s else s))
    (d_ a)
    (λ i, b ← deref this;
          o ← in_range (vec_at (sketches_ b) i);
          a ← deref this;
          s ← in_range (vec_at (sketches_ a) i);
          l ← in_range (vec_set (sketches_ a) i (sk_merge s o));
          assign this (with_sketches a l))
    h) as (h' & Hrun & a' & -> & Ha'); [lia| | |].
  - exists a. split; [by rewrite insert_id|].
    eapply reshaped_ext; [apply reshaped_refl|]. intros j s _.
    by rewrite decide_False by lia.
  - intros k h1 Hk (a1 & -> & Ha1).
    destruct (vec_at_in (sketches_ a) k) as (s0 & _ & Hs0); [lia|].
    destruct Ha1 as (Hk1 & Hd1 & Hl1 & Hf1).
    pose proof (Hf1 _ _ Hs0) as Hs1. rewrite decide_False in Hs1 by lia.
    assert (vec_at (sketches_ a1) k = Some s0) as Hat
      by (apply vec_at_Some; split; [lia|done]).
    assert (vec_set (sketches_ a1) k (sk_merge s0 s0)
            = Some (<[Z.to_nat k := sk_merge s0 s0]> (sketches_ a1))) as Hset
      by (apply vec_set_in; unfold ssize in *; lia).
    eexists. split.
    { rewrite (run_bind_ret _ _ _ a1 (<[this:=a1]> h)).
      2:{ apply run_deref. by rewrite lookup_insert_eq. }
      rewrite (bind_in_range _ _ _ _ Hat).
      rewrite (run_bind_ret _ _ _ a1 (<[this:=a1]> h)).
      2:{ apply run_deref. by rewrite lookup_insert_eq. }
      rewrite (bind_in_range _ _ _ _ Hat).
      rewrite (bind_in_range _ _ _ _ Hset).
      unfold assign. run. rewrite insert_insert_eq. reflexivity. }
    eexists. split; [reflexivity|]. repeat split; cbn; try done.
    + by rewrite length_insert.
    + intros j s Hs. destruct (decide (j = Z.to_nat k)) as [->|Hj].
      * rewrite list_lookup_insert_eq by (unfold ssize in *; lia).
        rewrite decide_True by lia. congruence.
      * rewrite list_lookup_insert_ne by done. rewrite (Hf1 _ _ Hs).
        destruct (decide (Z.of_nat j < k)).
        -- by rewrite decide_True by lia.
        -- by rewrite decide_False by lia.
  - exists a'. split; [done|]. eapply reshaped_ext; [exact Ha'|].
    intros j s Hs. cbn beta. rewrite decide_True; [done|].
    apply lookup_lt_Some in Hs. unfold ssize in Hsa. lia.
Qed.

(** X6.  [A.merge(A)] returns: the reference [other] is [A] itself, each
    step reads [S[i]] before it writes it, and [A] ends with every sketch
    merged with itself, [k] and [d] unchanged; when the engine's merge
    adds the counts, the count [S[i].get_n()] of every sketch has
    doubled. *)
Theorem merge_into_itself (h : store) this a :
  h !! this = Some a → container_ok a →
  ∃ a', merge this this h = Ret tt (<[this := a']> h)
        ∧ container_ok a' ∧ k_ a' = k_ a ∧ d_ a' = d_ a
        ∧ sketches_ a' = (λ s, sk_merge s s) <$> sketches_ a
        ∧ ((∀ s o, sk_get_n (sk_merge s o) = sk_get_n s + sk_get_n o) →
           sk_get_n <$> sketches_ a'
           = (λ x, x + x) <$> (sk_get_n <$> sketches_ a)).
Proof.
  intros Ha Hok. destruct (merge_self h this a Ha Hok) as (a' & Hrun & Ha').
  pose proof (reshaped_ok _ _ _ Hok Ha') as Hok'.
  assert (sketches_ a' = (λ s, sk_merge s s) <$> sketches_ a) as Hsk.
  { destruct Ha' as (_ & _ & Hl & Hf). apply list_eq. intros j.
    rewrite list_lookup_fmap. destruct (sketches_ a !! j) as [s|] eqn:Hs.
    - by rewrite (Hf _ _ Hs).
    - apply lookup_ge_None. apply lookup_ge_None in Hs. lia. }
  exists a'. split; [done|]. split; [done|].
  split; [apply Ha'|]. split; [apply Ha'|]. split; [done|].
  intros Hadd. rewrite Hsk, <- !list_fmap_compose.
  apply list_fmap_ext. intros _ s _. cbn. apply Hadd.
Qed.

(** ** The invariant of the container *)

Lemma deserialize_outcome c len bytes idx :
  container_ok c → 0 ≤ idx →
  match deserialize len bytes idx c with
  | Ret _ c' => same_frame c c' ∧ idx < d_ c
  | Throw e c' => c' = c
  | Fault _ => False
  end.
Proof.
  intros [Hd Hsz] Hidx. unfold deserialize. rewrite bind_get.
  destruct (Z.leb_spec (d_ c) idx); [done|].
  destruct (sk_deserialize bytes len) as [e|s].
  - done.
  - rewrite (bind_engine _ _ _ _ eq_refl).
    assert (0 ≤ idx < ssize (sketches_ c)) as Hin by lia.
    rewrite (bind_in_range _ _ _ _ (vec_set_in _ _ s Hin)).
    split; [|done]. repeat split. cbn. apply ssize_insert.
Qed.

(** X3.  The mutators keep the container well formed.  Whenever
    [update] or [deserialize] returns or throws on a well-formed
    container, the container it leaves has the same [k] and [d] and [d]
    sketches; [merge] of two well-formed containers of a store always
    returns or throws, and leaves a store that differs at most in [this],
    which is well formed with its [k] and [d]. *)
Theorem mutators_keep_the_container_well_formed :
  (∀ c items, container_ok c →
     match update items c with
     | Ret _ c' | Throw _ c' => container_ok c' ∧ get_k c' = get_k c ∧ get_d c' = get_d c
     | Fault _ => True
     end) ∧
  (∀ c len bytes idx, container_ok c → 0 ≤ idx →
     match deserialize len bytes idx c with
     | Ret _ c' | Throw _ c' => container_ok c' ∧ get_k c' = get_k c ∧ get_d c' = get_d c
     | Fault _ => False
     end) ∧
  (∀ (h : store) this other a b,
     h !! this = Some a → h !! other = Some b →
     container_ok a → container_ok b →
     match merge this other h with
     | Ret _ h' | Throw _ h' =>
         ∃ a', h' = <[this := a']> h
               ∧ container_ok a' ∧ get_k a' = get_k a ∧ get_d a' = get_d a
     | Fault _ => False
     end).
Proof.
  split; [|split].
  - intros c items Hok. pose proof (update_outcome c items Hok) as Hout.
    destruct (update items c) as [[] c'|e c'|f]; [| |done].
    + destruct Hout as [Hf _]. split; [by eapply same_frame_ok|].
      destruct Hf as (? & ? & _). by split.
    + by destruct Hout as [-> _].
  - intros c len bytes idx Hok Hidx.
    pose proof (deserialize_outcome c len bytes idx Hok Hidx) as Hout.
    destruct (deserialize len bytes idx c) as [[] c'|e c'|f]; [| |done].
    + destruct Hout as [Hf _]. split; [by eapply same_frame_ok|].
      destruct Hf as (? & ? & _). by split.
    + by subst c'.
  - intros h this other a b Ha Hb Hoka Hokb.
    destruct (decide (d_ a = d_ b)) as [Hd|Hd].
    + destruct (decide (this = other)) as [->|Hne].
      * destruct (merge_self h other a Ha Hoka) as (a' & Hrun & Ha').
        rewrite Hrun. exists a'. split; [done|].
        split; [exact (reshaped_ok _ _ _ Hoka Ha')|].
        destruct Ha' as (? & ? & _). by split.
      * destruct (merge_pairs h this other a b Ha Hb Hne Hoka Hokb Hd)
          as (a' & Hrun & Ha').
        rewrite Hrun. exists a'. split; [done|].
        split; [exact (reshaped_ok _ _ _ Hoka Ha')|].
        destruct Ha' as (? & ? & _). by split.
    + rewrite (merge_rejects h this other a b Ha Hb Hd).
      exists a. by rewrite insert_id.
Qed.

(** ** update, composed *)

Lemma reshaped_trans c0 c1 c2 f g :
  reshaped c0 c1 f → reshaped c1 c2 g → reshaped c0 c2 (λ j s, g j (f j s)).
Proof.
  intros (Hk1 & Hd1 & Hl1 & Hf1) (Hk2 & Hd2 & Hl2 & Hf2).
  repeat split; try congruence. intros j s Hs. by apply Hf2, Hf1.
Qed.

(** X7.  Submitting a two-dimensional buffer of shape [(n, d)] leaves the
    container that submitting its [n] rows one by one, as one-dimensional
    buffers and first row first, leaves: in either traversal. *)
Theorem update_is_update_row_by_row c items n :
  container_ok c → nd_shape items = [n; d_ c] → 0 ≤ n ≤ u32_max →
  ∃ c', update items c = Ret tt c'
        ∧ update_by_rows items (d_ c) n c = Ret tt c'.
Proof.
  intros Hok Hshape Hn.
  destruct (update_two_dimensional c items n Hok Hshape Hn) as (c' & Hrun & Hc').
  exists c'. split; [done|]. unfold update_by_rows.
  destruct (for_lt_ret (λ k c1, reshaped c c1 (feed items k)) n
    (λ i, update (row_of items (d_ c) i)) c) as (c2 & Hrun2 & Hc2);
    [lia|apply reshaped_refl| |].
  - intros k c1 Hk Hc1. pose proof (reshaped_ok _ _ _ Hok Hc1) as Hok1.
    assert (d_ c1 = d_ c) as Hd by apply Hc1.
    destruct (update_one_dimensional c1 (row_of items (d_ c) k) Hok1)
      as (c3 & Hrun3 & Hc3); [cbn; by rewrite Hd|].
    exists c3. split; [done|].
    eapply reshaped_ext; [exact (reshaped_trans _ _ _ _ _ Hc1 Hc3)|].
    intros j s _. cbn. unfold feed.
    by rewrite column_succ, fold_left_app by lia.
  - rewrite Hrun2. f_equal. by eapply reshaped_eq.
Qed.

(** X8.  A two-dimensional buffer with no row, of shape [(0, d)], is
    accepted and leaves the container exactly as it was. *)
Theorem update_with_no_row c items :
  container_ok c → nd_shape items = [0; d_ c] → update items c = Ret tt c.
Proof.
  intros Hok Hshape.
  destruct (update_two_dimensional c items 0 Hok Hshape) as (c' & Hrun & Hc');
    [unfold u32_max; lia|].
  rewrite Hrun. f_equal. eapply reshaped_eq; [exact Hc'|].
  eapply reshaped_ext; [apply reshaped_refl|]. by intros j s _.
Qed.

(** ** Per-channel queries *)

(** X9.  [is_empty], [get_n], [get_num_retained] and
    [is_estimation_mode] on a well-formed container return, and what they
    return is an array of shape [(d)] over the local [vals] of the call,
    which is destroyed at the return: no entry of the returned array can
    be read. *)
Theorem per_channel_queries_return_destroyed_storage c
    (retained : kll_sketch → Z) (estimating : kll_sketch → bool) :
  container_ok c →
  is_empty c = Value {| a1_shape := [d_ c]; a1_data := destroyed |}
  ∧ get_n c = Value {| a1_shape := [d_ c]; a1_data := destroyed |}
  ∧ get_num_retained retained c = Value {| a1_shape := [d_ c]; a1_data := destroyed |}
  ∧ is_estimation_mode estimating c = Value {| a1_shape := [d_ c]; a1_data := destroyed |}
  ∧ ∀ i,
      (∀ a, is_empty c = Value a → array1d_at a i = Undefined bad_reference)
      ∧ (∀ a, get_n c = Value a → array1d_at a i = Undefined bad_reference)
      ∧ (∀ a, get_num_retained retained c = Value a →
           array1d_at a i = Undefined bad_reference)
      ∧ (∀ a, is_estimation_mode estimating c = Value a →
           array1d_at a i = Undefined bad_reference).
Proof.
  intros Hok.
  pose proof (is_empty_each c Hok) as H1.
  pose proof (get_n_each c Hok) as H2.
  pose proof (per_sketch_pure c 0 retained Hok) as H3.
  pose proof (per_sketch_pure c false estimating Hok) as H4.
  split; [exact H1|]. split; [exact H2|]. split; [exact H3|].
  split; [exact H4|].
  intros i. unfold get_num_retained, is_estimation_mode.
  rewrite H1, H2, H3, H4.
  repeat split; intros a Ha; injection Ha as <-; reflexivity.
Qed.

Lemma per_sketch_engine {V} c (zero : V) (f : kll_sketch → exn + V) xs :
  container_ok c → Forall2 (λ s x, f s = inr x) (sketches_ c) xs →
  per_sketch c zero (λ s, engine (f s)) = Value (view_of_local xs [d_ c]).
Proof.
  intros [Hd Hsz] Hxs. unfold per_sketch, eval_local. rewrite run_bind.
  pose proof (Forall2_length _ _ _ Hxs) as Hl.
  set (z := replicate (Z.to_nat (d_ c)) zero).
  assert (length z = length xs) as Hlen.
  { unfold z. rewrite length_replicate. unfold ssize in Hsz. lia. }
  destruct (for_lt_ret
    (λ k vals, vals = take (Z.to_nat k) xs ++ drop (Z.to_nat k) z)
    (d_ c)
    (λ i, s ← in_range (vec_at (sketches_ c) i); x ← engine (f s); set_val i x)
    z) as (vals & Hrun & Hvals); [lia|done| |].
  - intros k vals Hk ->.
    destruct (vec_at_in (sketches_ c) k) as (s & Hs & Hlk); [lia|].
    destruct (Forall2_lookup_l _ _ _ _ _ Hxs Hlk) as (x & Hx & Hfx).
    assert (0 ≤ k < ssize (take (Z.to_nat k) xs ++ drop (Z.to_nat k) z)) as Hin.
    { unfold ssize in *. rewrite length_app, length_take, length_drop. lia. }
    eexists. split.
    { rewrite (bind_in_range _ _ _ _ Hs), (bind_engine _ _ _ _ Hfx).
      unfold set_val. rewrite bind_get.
      rewrite (bind_in_range _ _ _ _ (vec_set_in _ _ x Hin)).
      reflexivity. }
    replace (Z.to_nat (k + 1)) with (S (Z.to_nat k)) by lia.
    by apply insert_progress.
  - rewrite Hrun. run. reflexivity.
Qed.

Lemma per_sketch_raises {V} c (zero : V) (f : kll_sketch → exn + V) pre s post e :
  container_ok c → sketches_ c = pre ++ s :: post →
  Forall (λ s', ∃ x, f s' = inr x) pre → f s = inl e →
  per_sketch c zero (λ s, engine (f s)) = Raised e.
Proof.
  intros [Hd Hsz] Hsk Hpre He. unfold per_sketch, eval_local.
  rewrite run_bind. unfold for_lt.
  assert (Z.to_nat (d_ c) = (length pre + S (length post))%nat) as ->.
  { unfold ssize in Hsz. rewrite Hsk, length_app in Hsz. cbn in Hsz. lia. }
  rewrite loop_app, run_bind.
  set (z := replicate (length pre + S (length post)) zero).
  destruct (loop_ret
    (λ k (vals : list V), length vals = length z)
    (length pre) 0
    (λ i, s ← in_range (vec_at (sketches_ c) i); x ← engine (f s); set_val i x)
    z) as (vals & Hrun & Hvals); [done| |].
  - intros k vals Hk Hl.
    assert (0 ≤ k < ssize pre) as Hk' by (unfold ssize; lia).
    destruct (vec_at_in pre k Hk') as (s' & _ & Hs').
    assert (vec_at (sketches_ c) k = Some s') as Hat.
    { apply vec_at_Some. split; [lia|]. rewrite Hsk. by apply lookup_app_l_Some. }
    destruct (proj1 (Forall_forall _ _) Hpre s') as [x Hx];
      [by eapply list_elem_of_lookup_2|].
    assert (0 ≤ k < ssize vals) as Hin.
    { unfold ssize in *. unfold z in Hl. rewrite length_replicate in Hl. lia. }
    eexists. split.
    { rewrite (bind_in_range _ _ _ _ Hat), (bind_engine _ _ _ _ Hx).
      unfold set_val. rewrite bind_get.
      rewrite (bind_in_range _ _ _ _ (vec_set_in _ _ x Hin)).
      reflexivity. }
    by rewrite length_insert.
  - rewrite Hrun. rewrite loop_S, run_bind.
    assert (vec_at (sketches_ c) (0 + Z.of_nat (length pre)) = Some s) as Hat.
    { rewrite Z.add_0_l, vec_at_of_nat, Hsk. by rewrite list_lookup_middle. }
    rewrite (bind_in_range _ _ _ _ Hat). by rewrite run_bind, He.
Qed.

(** X10.  [get_min_values] and [get_max_values] do not mask the engine:
    when it throws for some sketch (an empty one, say) the call throws the
    exception of the first such channel.  When the engine answers for
    every sketch the call returns, and what it returns is an array of
    shape [(d)] over the destroyed local [vals], like the other
    per-channel queries. *)
Theorem extreme_values_surface_engine_errors c :
  container_ok c →
  (∀ xs, Forall2 (λ s x, sk_get_min_item s = inr x) (sketches_ c) xs →
     get_min_values c = Value {| a1_shape := [d_ c]; a1_data := destroyed |}) ∧
  (∀ xs, Forall2 (λ s x, sk_get_max_item s = inr x) (sketches_ c) xs →
     get_max_values c = Value {| a1_shape := [d_ c]; a1_data := destroyed |}) ∧
  (∀ pre s post e,
     sketches_ c = pre ++ s :: post →
     Forall (λ s', ∃ x, sk_get_min_item s' = inr x) pre →
     sk_get_min_item s = inl e → get_min_values c = Raised e) ∧
  (∀ pre s post e,
     sketches_ c = pre ++ s :: post →
     Forall (λ s', ∃ x, sk_get_max_item s' = inr x) pre →
     sk_get_max_item s = inl e → get_max_values c = Raised e).
Proof.
  intros Hok. split; [|split; [|split]].
  - intros xs Hxs. exact (per_sketch_engine c T_zero sk_get_min_item xs Hok Hxs).
  - intros xs Hxs. exact (per_sketch_engine c T_zero sk_get_max_item xs Hok Hxs).
  - intros pre s post e Hsk Hpre He. by eapply per_sketch_raises.
  - intros pre s post e Hsk Hpre He. by eapply per_sketch_raises.
Qed.

(** ** Selectors at the edges *)

Lemma single_index_out_of_range c isk ix :
  get_indices (d_ c) isk = Value [ix] → vec_at (sketches_ c) ix = None →
  serialize c isk = Undefined out_of_bounds
  ∧ (∀ split_points,
       get_pmf c split_points isk = Undefined out_of_bounds
       ∧ get_cdf c split_points isk = Undefined out_of_bounds)
  ∧ (∀ ranks, ranks ≠ [] → get_quantiles c ranks isk = Undefined out_of_bounds)
  ∧ (∀ values, values ≠ [] → get_ranks c values isk = Undefined out_of_bounds).
Proof.
  intros Hres Hnone. split; [|split; [|split]].
  - unfold serialize, eval_local. rewrite (bind_call _ _ _ _ Hres). cbn zeta.
    change (ssize [ix]) with 1. rewrite run_bind, for_u32_once, run_bind.
    by rewrite (run_bind_fault _ _ _ _ (selected_out_of_range c _ _ Hnone)).
  - intros split_points. split.
    + unfold get_pmf, eval_local. rewrite (bind_call _ _ _ _ Hres). cbn zeta.
      rewrite bind_put. change (ssize [ix]) with 1.
      rewrite run_bind, for_u32_once, run_bind.
      by rewrite (run_bind_fault _ _ _ _ (selected_out_of_range c _ _ Hnone)).
    + unfold get_cdf, eval_local. rewrite (bind_call _ _ _ _ Hres). cbn zeta.
      rewrite bind_put. change (ssize [ix]) with 1.
      rewrite run_bind, for_u32_once, run_bind.
      by rewrite (run_bind_fault _ _ _ _ (selected_out_of_range c _ _ Hnone)).
  - intros ranks Hne. unfold get_quantiles, eval_local.
    rewrite (bind_call _ _ _ _ Hres). cbn zeta.
    rewrite bind_put. change (ssize [ix]) with 1.
    rewrite run_bind, for_u32_once, run_bind.
    rewrite (for_lt_first ranks _ _ out_of_bounds Hne); [done|].
    by rewrite (run_bind_fault _ _ _ _ (selected_out_of_range c _ _ Hnone)).
  - intros values Hne. unfold get_ranks, eval_local.
    rewrite (bind_call _ _ _ _ Hres). cbn zeta.
    rewrite bind_put. change (ssize [ix]) with 1.
    rewrite run_bind, for_u32_once, run_bind.
    rewrite (for_lt_first values _ _ out_of_bounds Hne); [done|].
    by rewrite (run_bind_fault _ _ _ _ (selected_out_of_range c _ _ Hnone)).
Qed.

(** X11.  Only a selector of one element can name a sketch that is not
    there: when the resolver returns for the sentinel [[-1]] or for a
    selector of another length than one, every index it returns is in
    [[0, d)], and a well-formed container has a sketch at each. *)
Theorem resolved_indices_stay_in_range c isk inds :
  container_ok c → ssize isk ≤ u32_max →
  isk = [-1] ∨ length isk ≠ 1%nat →
  get_indices (d_ c) isk = Value inds →
  Forall (λ ix, 0 ≤ ix < d_ c) inds ∧ ∃ sel, picks c inds sel.
Proof.
  intros [Hd Hsz] Hmax Hisk Hres.
  assert (Forall (λ ix, 0 ≤ ix < d_ c) inds) as Hin.
  { destruct Hisk as [->|Hlen].
    - rewrite get_indices_all in Hres. injection Hres as <-.
      apply Forall_forall. intros ix Hix.
      apply list_elem_of_lookup in Hix as [i Hi].
      apply lookup_seqZ in Hi. lia.
    - rewrite get_indices_many in Hres by done.
      assert (∀ l acc, scan (d_ c) l acc = Value inds →
                Forall (λ ix, 0 ≤ ix < d_ c) acc →
                Forall (λ ix, 0 ≤ ix < d_ c) inds) as Hscan.
      { clear. induction l as [|v l IH]; intros acc; cbn [scan].
        - by intros [= <-].
        - destruct (Z.ltb_spec (to_u32 v) (d_ c)); [|done].
          intros Hrun Hacc. apply (IH _ Hrun). apply Forall_app. split; [done|].
          constructor; [|done]. split; [|done].
          unfold to_u32. apply Z.mod_pos_bound. lia. }
      by apply (Hscan isk []). }
  split; [done|]. apply picks_exist. by rewrite Hsz.
Qed.

(** X12.  An index [v >= d] is refused when it stands in a selector of
    two elements, and passed on unchecked when it is the only element:
    [serialize], [get_pmf], [get_cdf], and [get_quantiles] and [get_ranks]
    with at least one query point then read [sketches_] out of range. *)
Theorem single_index_beyond_width c v :
  container_ok c → d_ c ≤ v → is_int v →
  get_indices (d_ c) [v; v] = Raised (invalid_dimensions (d_ c) v)
  ∧ get_indices (d_ c) [v] = Value [v]
  ∧ serialize c [v] = Undefined out_of_bounds
  ∧ (∀ split_points,
       get_pmf c split_points [v] = Undefined out_of_bounds
       ∧ get_cdf c split_points [v] = Undefined out_of_bounds)
  ∧ (∀ ranks, ranks ≠ [] → get_quantiles c ranks [v] = Undefined out_of_bounds)
  ∧ (∀ values, values ≠ [] → get_ranks c values [v] = Undefined out_of_bounds).
Proof.
  intros [Hd Hsz] Hv Hint.
  assert (to_u32 v = v) as Hu by (apply to_u32_nonneg; [lia|done]).
  assert (get_indices (d_ c) [v] = Value [v]) as Hres.
  { rewrite get_indices_one by lia. by rewrite Hu. }
  split.
  { rewrite get_indices_many by (cbn; unfold u32_max; lia || done).
    pose proof (scan_rejects (d_ c) [] v [v] [] (Forall_nil_2 _)) as Hs.
    rewrite Hu in Hs. apply Hs. lia. }
  split; [done|].
  apply (single_index_out_of_range c [v] v Hres). apply vec_at_out. lia.
Qed.

(** X13.  The empty selector resolves to no index: every bulk query
    returns an empty result and [collapse] the engine's fresh sketch for
    [k], on any container and without reading a sketch. *)
Theorem empty_selector_selects_nothing c :
  get_indices (d_ c) [] = Value []
  ∧ (∀ ranks, get_quantiles c ranks [] = Value [])
  ∧ (∀ values, get_ranks c values [] = Value [])
  ∧ (∀ split_points, get_pmf c split_points [] = Value []
                     ∧ get_cdf c split_points [] = Value [])
  ∧ serialize c [] = Value []
  ∧ (∀ r0, sk_new (k_ c) = inr r0 → collapse c [] = Value r0).
Proof.
  split; [reflexivity|]. split; [reflexivity|]. split; [reflexivity|].
  split; [by split|]. split; [reflexivity|].
  intros r0 Hnew. unfold collapse. by rewrite Hnew.
Qed.

(** X17.  With no query point, [get_quantiles] and [get_ranks] return one
    empty row per resolved index without reading any sketch: also for an
    index that names no sketch, and for sketches the engine would refuse
    to answer for. *)
Theorem no_query_point_reads_no_sketch c isk inds :
  1 ≤ d_ c ≤ u32_max → ssize isk ≤ u32_max →
  get_indices (d_ c) isk = Value inds →
  get_quantiles c [] isk = Value (replicate (length inds) [])
  ∧ get_ranks c [] isk = Value (replicate (length inds) []).
Proof.
  intros Hd Hmax Hres.
  assert (ssize inds ≤ u32_max) as Hsz
    by (eapply get_indices_size; [|exact Hmax|exact Hres]; unfold is_u32; lia).
  assert (∀ {V} (zero : V) (body : Z → Z → M (list (list V)) unit),
            for_u32 (ssize inds) (λ i, for_lt (ssize (@nil V)) (body i))
              (matrix (ssize inds) 0 zero)
            = Ret tt (replicate (length inds) [])) as Hloop.
  { intros V zero body. unfold for_u32. destruct (Z.leb_spec (ssize inds) u32_max); [|lia].
    unfold matrix, ssize. rewrite Nat2Z.id. cbn [replicate Z.to_nat].
    destruct (loop_keeps (λ m, m = replicate (length inds) (@nil V))
                (Z.to_nat (Z.of_nat (length inds))) 0
                (λ i, for_lt (Z.of_nat (length (@nil V))) (body i))
                (replicate (length inds) [])) as (m & Hrun & ->); [done| |done].
    intros k m ->. by eexists. }
  split.
  - unfold get_quantiles, eval_local. rewrite (bind_call _ _ _ _ Hres). cbn zeta.
    rewrite bind_put. change (ssize (@nil double)) with 0 at 1.
    by rewrite (run_bind_ret _ _ _ _ _ (Hloop _ T_zero _)).
  - unfold get_ranks, eval_local. rewrite (bind_call _ _ _ _ Hres). cbn zeta.
    rewrite bind_put. change (ssize (@nil T)) with 0 at 1.
    by rewrite (run_bind_ret _ _ _ _ _ (Hloop _ float_zero _)).
Qed.

(** ** collapse *)

(** X14.  [collapse] uses of its argument the number of elements only.
    With [|isk| <= d] it returns a fresh sketch for [k] into which
    [S[0]], ..., [S[|isk| - 1]] have been merged in this order, whatever
    [isk] holds; with [|isk| > d] it reads [sketches_[d]], out of range;
    and an engine that refuses [k] makes it throw the engine's exception. *)
Theorem collapse_reads_positions_not_indices c isk :
  container_ok c → ssize isk ≤ int_max →
  (∀ r0, sk_new (k_ c) = inr r0 → ssize isk ≤ d_ c →
     collapse c isk
     = Value (fold_left sk_merge (take (length isk) (sketches_ c)) r0)) ∧
  (∀ r0, sk_new (k_ c) = inr r0 → d_ c < ssize isk →
     collapse c isk = Undefined out_of_bounds) ∧
  (∀ e, sk_new (k_ c) = inl e → collapse c isk = Raised e).
Proof.
  intros Hok Hmax. split; [|split].
  - intros r0 Hnew Hlen. by apply collapse_merges_prefix.
  - intros r0 Hnew Hlen. destruct Hok as [Hd Hsz].
    unfold collapse. rewrite Hnew. unfold eval_local. rewrite run_bind.
    unfold for_int. destruct (Z.leb_spec (ssize isk) int_max); [|lia].
    unfold for_lt.
    assert (Z.to_nat (ssize isk)
            = (Z.to_nat (d_ c) + S (Z.to_nat (ssize isk - d_ c - 1)))%nat) as ->
      by lia.
    rewrite loop_app, run_bind.
    destruct (loop_ret (λ _ (_ : kll_sketch), True) (Z.to_nat (d_ c)) 0
      (λ idx, s ← in_range (vec_at (sketches_ c) idx);
              modify (λ result, sk_merge result s)) r0)
      as (r & Hrun & _); [done| |].
    + intros k r Hk _.
      destruct (vec_at_in (sketches_ c) k) as (s & Hs & _); [lia|].
      eexists. split; [|done]. by rewrite (bind_in_range _ _ _ _ Hs).
    + rewrite Hrun. rewrite loop_S, !run_bind.
      by rewrite vec_at_out by lia.
  - intros e Hnew. unfold collapse. by rewrite Hnew.
Qed.

(** ** Engine errors in the bulk queries *)

Lemma selected_at {St} c inds i ix s (st : St) :
  vec_at inds i = Some ix → vec_at (sketches_ c) ix = Some s →
  selected c inds i st = Ret s st.
Proof.
  intros Hix Hs. unfold selected. rewrite (bind_in_range _ _ _ _ Hix).
  by rewrite Hs.
Qed.

Lemma first_entry_raises {X Y V} c inds (xs : list X) ix s x e
    (f : kll_sketch → X → exn + Y) (g : Y → V) (m : list (list V)) :
  vec_at inds 0 = Some ix → vec_at (sketches_ c) ix = Some s →
  vec_at xs 0 = Some x → f s x = inl e → ssize inds ≤ u32_max →
  ∃ m', for_u32 (ssize inds) (λ i,
          for_lt (ssize xs) (λ j,
            s ← selected c inds i;
            x ← in_range (vec_at xs j);
            y ← engine (f s x);
            set_entry i j (g y))) m
        = Throw e m'.
Proof.
  intros Hix Hs Hx He Hmax. exists m. unfold for_u32.
  destruct (Z.leb_spec (ssize inds) u32_max); [|lia]. unfold for_lt.
  destruct inds as [|ix' inds]; [done|]. destruct xs as [|x' xs]; [done|].
  unfold ssize. rewrite !Nat2Z.id. cbn [length].
  rewrite loop_S, run_bind, loop_S, run_bind.
  rewrite (run_bind_ret _ _ _ _ _ (selected_at c _ 0 ix s _ Hix Hs)).
  rewrite (bind_in_range _ _ _ _ Hx). by rewrite run_bind, He.
Qed.

Lemma first_row_raises {X V} c inds ix s e (cols : Z)
    (f : kll_sketch → exn + list X) (g : X → V) (m : list (list V)) :
  vec_at inds 0 = Some ix → vec_at (sketches_ c) ix = Some s →
  f s = inl e → ssize inds ≤ u32_max →
  ∃ m', for_u32 (ssize inds) (λ i,
          s ← selected c inds i;
          vec ← engine (f s);
          for_lt cols (λ j,
            x ← in_range (vec_at vec j);
            set_entry i j (g x))) m
        = Throw e m'.
Proof.
  intros Hix Hs He Hmax. exists m. unfold for_u32.
  destruct (Z.leb_spec (ssize inds) u32_max); [|lia]. unfold for_lt.
  destruct inds as [|ix' inds]; [done|].
  unfold ssize. rewrite !Nat2Z.id. cbn [length].
  rewrite loop_S, run_bind.
  rewrite (run_bind_ret _ _ _ _ _ (selected_at c _ 0 ix s _ Hix Hs)).
  by rewrite run_bind, He.
Qed.

(** X16.  The bulk queries do not mask the engine either: when the
    engine throws for the first selected sketch (at the first query
    point, for [get_quantiles] and [get_ranks]), the call throws the
    engine's exception and returns no matrix. *)
Theorem bulk_queries_surface_engine_errors c isk ix rest s :
  1 ≤ d_ c ≤ u32_max → ssize isk ≤ u32_max →
  get_indices (d_ c) isk = Value (ix :: rest) →
  vec_at (sketches_ c) ix = Some s →
  (∀ r ranks e, sk_get_quantile s r = inl e →
     get_quantiles c (r :: ranks) isk = Raised e) ∧
  (∀ v values e, sk_get_rank s v = inl e →
     get_ranks c (v :: values) isk = Raised e) ∧
  (∀ split_points e, sk_get_PMF s split_points = inl e →
     get_pmf c split_points isk = Raised e) ∧
  (∀ split_points e, sk_get_CDF s split_points = inl e →
     get_cdf c split_points isk = Raised e).
Proof.
  intros Hd Hmax Hres Hs.
  assert (ssize (ix :: rest) ≤ u32_max) as Hsz
    by (eapply get_indices_size; [|exact Hmax|exact Hres]; unfold is_u32; lia).
  split; [|split; [|split]].
  - intros r ranks e He. unfold get_quantiles, eval_local.
    rewrite (bind_call _ _ _ _ Hres). cbn zeta. rewrite bind_put.
    destruct (first_entry_raises c (ix :: rest) (r :: ranks) ix s r e
                sk_get_quantile (λ q, q)
                (matrix (ssize (ix :: rest)) (ssize (r :: ranks)) T_zero)
                eq_refl Hs eq_refl He Hsz) as [m' Hrun].
    by rewrite (run_bind_throw _ _ _ _ _ Hrun).
  - intros v values e He. unfold get_ranks, eval_local.
    rewrite (bind_call _ _ _ _ Hres). cbn zeta. rewrite bind_put.
    destruct (first_entry_raises c (ix :: rest) (v :: values) ix s v e
                sk_get_rank double_to_float
                (matrix (ssize (ix :: rest)) (ssize (v :: values)) float_zero)
                eq_refl Hs eq_refl He Hsz) as [m' Hrun].
    by rewrite (run_bind_throw _ _ _ _ _ Hrun).
  - intros split_points e He. unfold get_pmf, eval_local.
    rewrite (bind_call _ _ _ _ Hres). cbn zeta. rewrite bind_put.
    destruct (first_row_raises c (ix :: rest) ix s e (ssize split_points + 1)
                (λ s, sk_get_PMF s split_points) double_to_T
                (matrix (ssize (ix :: rest)) (ssize split_points + 1) T_zero)
                eq_refl Hs He Hsz) as [m' Hrun].
    by rewrite (run_bind_throw _ _ _ _ _ Hrun).
  - intros split_points e He. unfold get_cdf, eval_local.
    rewrite (bind_call _ _ _ _ Hres). cbn zeta. rewrite bind_put.
    destruct (first_row_raises c (ix :: rest) ix s e (ssize split_points + 1)
                (λ s, sk_get_CDF s split_points) double_to_T
                (matrix (ssize (ix :: rest)) (ssize split_points + 1) T_zero)
                eq_refl Hs He Hsz) as [m' Hrun].
    by rewrite (run_bind_throw _ _ _ _ _ Hrun).
Qed.

(** ** serialize and deserialize, all channels *)

Lemma picks_all c : container_ok c → picks c (seqZ 0 (d_ c)) (sketches_ c).
Proof.
  intros [Hd Hsz]. apply Forall2_same_length_lookup. split.
  - rewrite length_seqZ. unfold ssize in Hsz. lia.
  - intros i ix s Hix Hs. apply lookup_seqZ in Hix as [-> _].
    by rewrite Z.add_0_l, vec_at_of_nat.
Qed.

(** X15.  The blobs [serialize([-1])] returns for a container, handed
    back in order by [deserialize(blob_i, i)] to any well-formed container
    of the same [d], leave that container with the sketches of the first
    one, when the engine reads each of its images back; [k] and [d] of
    the receiving container stay. *)
Theorem serialize_all_then_deserialize_all c0 c (size_of : list byte → Z) :
  container_ok c0 → container_ok c → d_ c = d_ c0 →
  (∀ s, s ∈ sketches_ c0 →
     sk_deserialize (sk_serialize s) (size_of (sk_serialize s)) = inr s) →
  ∃ blobs c',
    serialize c0 [-1] = Value blobs ∧ ssize blobs = d_ c0
    ∧ deserialize_all size_of blobs c = Ret tt c'
    ∧ sketches_ c' = sketches_ c0 ∧ k_ c' = k_ c ∧ d_ c' = d_ c.
Proof.
  intros Hok0 Hok Hd Hrt. pose proof Hok0 as [Hd0 Hsz0]. pose proof Hok as [_ Hsz].
  exists (sk_serialize <$> sketches_ c0).
  assert (ssize (sk_serialize <$> sketches_ c0) = d_ c0) as Hbl
    by (unfold ssize in *; by rewrite length_fmap).
  assert (length (sketches_ c) = length (sketches_ c0)) as Hlen
    by (unfold ssize in *; lia).
  destruct (for_lt_ret
    (λ k c1, k_ c1 = k_ c ∧ d_ c1 = d_ c
             ∧ sketches_ c1 = take (Z.to_nat k) (sketches_ c0)
                              ++ drop (Z.to_nat k) (sketches_ c))
    (ssize (sk_serialize <$> sketches_ c0))
    (λ i, b ← in_range (vec_at (sk_serialize <$> sketches_ c0) i);
          deserialize (size_of b) b i)
    c) as (c' & Hrun & Hk' & Hd' & Hsk'); [lia|done| |].
  - intros k c1 Hk (Hk1 & Hd1 & Hsk1). rewrite Hbl in Hk.
    destruct (vec_at_in (sketches_ c0) k) as (s & _ & Hs); [lia|].
    assert (vec_at (sk_serialize <$> sketches_ c0) k = Some (sk_serialize s)) as Hb.
    { apply vec_at_Some. split; [lia|]. by rewrite list_lookup_fmap, Hs. }
    assert (0 ≤ k < ssize (sketches_ c1)) as Hin.
    { rewrite Hsk1. unfold ssize in *.
      rewrite length_app, length_take, length_drop. lia. }
    eexists. split.
    { rewrite (bind_in_range _ _ _ _ Hb). unfold deserialize. rewrite bind_get.
      destruct (Z.leb_spec (d_ c1) k); [lia|].
      rewrite (bind_engine _ _ _ _ (Hrt s (list_elem_of_lookup_2 _ _ _ Hs))).
      rewrite (bind_in_range _ _ _ _ (vec_set_in _ _ s Hin)). reflexivity. }
    split; [done|]. split; [done|]. cbn [sketches_ with_sketches]. rewrite Hsk1.
    replace (Z.to_nat (k + 1)) with (S (Z.to_nat k)) by lia.
    by apply insert_progress.
  - exists c'. split.
    { apply (serialize_blobs c0 [-1] (seqZ 0 (d_ c0))).
      - apply get_indices_all.
      - by apply picks_all.
      - unfold ssize. rewrite length_seqZ. lia. }
    split; [done|]. split; [exact Hrun|]. split; [|done].
    rewrite Hsk', Hbl. unfold ssize in *.
    rewrite take_ge, drop_ge by lia. by rewrite app_nil_r.
Qed.

End MoreFacts.

(** ** The further properties at the containers above *)

Lemma construction_builds_fresh_sketches_witness :
  ∃ c, new_vector_of_kll_sketches (E := Exact.engine) 200 2 = Value c
       ∧ container_ok c ∧ sketches_ c = sketches_ fresh_pair.
Proof.
  destruct (construction_builds_fresh_sketches (E := Exact.engine) 200 2
              {| Exact.ex_k := 200; Exact.ex_items := [] |})
    as (c & Hrun & Hok & _ & _ & Hsk & _).
  - unfold u32_max. lia.
  - reflexivity.
  - by exists c.
Defined.

Lemma construction_checks_width_first_witness :
  new_vector_of_kll_sketches (E := Exact.engine) 3 2
  = Raised (invalid_argument "K must be >= 8 and <= 65535: 3").
Proof.
  apply (proj2 (construction_checks_width_first (E := Exact.engine) 3 2)).
  - lia.
  - reflexivity.
Defined.

Lemma mutators_keep_the_container_well_formed_witness :
  match update (E := Exact.engine) two_rows after_two_rows with
  | Ret _ c' | Throw _ c' =>
      container_ok c' ∧ get_k c' = get_k after_two_rows
      ∧ get_d c' = get_d after_two_rows
  | Fault _ => True
  end.
Proof.
  apply (proj1 (mutators_keep_the_container_well_formed (E := Exact.engine))).
  exact after_two_rows_ok.
Defined.

Lemma update_of_zero_dimensional_array_witness :
  update (E := Exact.engine) (zeros []) after_two_rows = Fault out_of_bounds.
Proof.
  apply (update_of_zero_dimensional_array (E := Exact.engine)). reflexivity.
Defined.

Lemma update_with_too_many_rows_witness :
  update (E := Exact.engine) (zeros [4294967296; 2]) after_two_rows
  = Fault no_exit.
Proof.
  apply (update_with_too_many_rows (E := Exact.engine) after_two_rows
           (zeros [4294967296; 2]) 4294967296).
  - exact after_two_rows_ok.
  - reflexivity.
  - unfold u32_max. lia.
Defined.

Lemma merge_into_itself_witness :
  ∃ a', merge 0 0 two_containers = Ret tt (<[0%nat := a']> two_containers)
        ∧ sketches_ a' = (λ s, sk_merge s s) <$> sketches_ after_two_rows
        ∧ sk_get_n <$> sketches_ a' = [4; 4].
Proof.
  destruct (merge_into_itself two_containers 0 after_two_rows)
    as (a' & Hrun & _ & _ & _ & Hsk & Hn).
  - reflexivity.
  - exact after_two_rows_ok.
  - exists a'. split; [done|]. split; [done|].
    rewrite Hn; [reflexivity|exact exact_merge_adds].
Defined.

Lemma update_is_update_row_by_row_witness :
  ∃ c', update (E := Exact.engine) two_rows after_two_rows = Ret tt c'
        ∧ update_by_rows (E := Exact.engine) two_rows 2 2 after_two_rows
          = Ret tt c'.
Proof.
  apply (update_is_update_row_by_row (E := Exact.engine) after_two_rows
           two_rows 2).
  - exact after_two_rows_ok.
  - reflexivity.
  - unfold u32_max. lia.
Defined.

Lemma update_with_no_row_witness :
  update (E := Exact.engine) (zeros [0; 2]) after_two_rows
  = Ret tt after_two_rows.
Proof.
  apply (update_with_no_row (E := Exact.engine)).
  - exact after_two_rows_ok.
  - reflexivity.
Defined.

Lemma per_channel_queries_return_destroyed_storage_witness :
  get_n after_two_rows = Value {| a1_shape := [2]; a1_data := destroyed |}
  ∧ get_num_retained (E := Exact.engine) Exact.ex_get_n after_two_rows
    = Value {| a1_shape := [2]; a1_data := destroyed |}
  ∧ ∀ a, get_n after_two_rows = Value a
         → array1d_at a 0 = Undefined bad_reference.
Proof.
  destruct (per_channel_queries_return_destroyed_storage (E := Exact.engine)
              after_two_rows Exact.ex_get_n (λ _, false) after_two_rows_ok)
    as (_ & Hn & Hr & _ & Hat).
  split; [exact Hn|]. split; [exact Hr|]. apply (Hat 0).
Defined.

Lemma extreme_values_surface_engine_errors_witness :
  get_min_values after_two_rows
  = Value {| a1_shape := [2]; a1_data := destroyed |}
  ∧ get_min_values fresh_pair = Raised Exact.empty_error.
Proof.
  split.
  - apply (proj1 (extreme_values_surface_engine_errors after_two_rows
                    after_two_rows_ok) [1; 2]%Q).
    repeat constructor.
  - refine (proj1 (proj2 (proj2 (extreme_values_surface_engine_errors fresh_pair
              _))) [] _ _ _ eq_refl _ eq_refl).
    + unfold container_ok, fresh_pair, u32_max, ssize.
      cbn [d_ sketches_ length]. lia.
    + constructor.
Defined.

Lemma resolved_indices_stay_in_range_witness :
  Forall (λ ix, 0 ≤ ix < d_ after_two_rows) [1; 0]
  ∧ ∃ sel, picks after_two_rows [1; 0] sel.
Proof.
  apply (resolved_indices_stay_in_range after_two_rows [1; 0] [1; 0]).
  - exact after_two_rows_ok.
  - unfold ssize, u32_max. cbn [length]. lia.
  - right. cbn. lia.
  - reflexivity.
Defined.

Lemma single_index_beyond_width_witness :
  get_indices (d_ after_two_rows) [2; 2]
  = Raised (invalid_dimensions (d_ after_two_rows) 2)
  ∧ get_indices (d_ after_two_rows) [2] = Value [2]
  ∧ serialize after_two_rows [2] = Undefined out_of_bounds.
Proof.
  destruct (single_index_beyond_width after_two_rows 2) as (H1 & H2 & H3 & _).
  - exact after_two_rows_ok.
  - cbn. lia.
  - unfold is_int, int_min, int_max. lia.
  - by repeat split.
Defined.

Lemma empty_selector_selects_nothing_witness :
  collapse after_two_rows []
  = Value {| Exact.ex_k := 200; Exact.ex_items := [] |}.
Proof.
  apply (empty_selector_selects_nothing after_two_rows). reflexivity.
Defined.

Lemma collapse_reads_positions_not_indices_witness :
  collapse after_two_rows [7; 7; 7] = Undefined out_of_bounds.
Proof.
  refine (proj1 (proj2 (collapse_reads_positions_not_indices after_two_rows
            [7; 7; 7] after_two_rows_ok _))
            {| Exact.ex_k := 200; Exact.ex_items := [] |} eq_refl _).
  - unfold ssize, int_max. cbn [length]. lia.
  - unfold ssize. cbn. lia.
Defined.

Lemma serialize_all_then_deserialize_all_witness :
  ∃ blobs c',
    serialize after_two_rows [-1] = Value blobs
    ∧ deserialize_all ssize blobs after_one_row = Ret tt c'
    ∧ sketches_ c' = sketches_ after_two_rows.
Proof.
  destruct (serialize_all_then_deserialize_all after_two_rows after_one_row ssize)
    as (blobs & c' & Hser & _ & Hrun & Hsk & _).
  - exact after_two_rows_ok.
  - unfold container_ok, after_one_row, u32_max, ssize.
    cbn [d_ sketches_ length]. lia.
  - reflexivity.
  - intros s Hs. cbn in Hs.
    apply elem_of_cons in Hs as [->|Hs]; [reflexivity|].
    apply elem_of_cons in Hs as [->|Hs]; [reflexivity|].
    by apply elem_of_nil in Hs.
  - by exists blobs, c'.
Defined.

Lemma bulk_queries_surface_engine_errors_witness :
  get_quantiles fresh_pair [0; 1]%Q [-1] = Raised Exact.empty_error.
Proof.
  refine (proj1 (bulk_queries_surface_engine_errors fresh_pair [-1] 0 [1]
            {| Exact.ex_k := 200; Exact.ex_items := [] |} _ _ eq_refl eq_refl)
            0%Q [1%Q] Exact.empty_error eq_refl).
  - cbn. unfold u32_max. lia.
  - unfold ssize, u32_max. cbn [length]. lia.
Defined.

Lemma no_query_point_reads_no_sketch_witness :
  get_quantiles after_two_rows [] [-1] = Value [[]; []].
Proof.
  refine (proj1 (no_query_point_reads_no_sketch after_two_rows [-1] [0; 1]
            _ _ eq_refl)).
  - cbn. unfold u32_max. lia.
  - unfold ssize, u32_max. cbn [length]. lia.
Defined.
